(** * The ECS task-definition module: list merge and reconciliation

    A shallow embedding of [library/aws_ecs_taskdefinition.py]:
    [merge_lists], the [EcsTaskManager] wrapper around the ECS client and
    the decision logic of [main], followed by the properties stated for
    them. *)

From Stdlib Require Import Ascii.
From stdpp Require Import gmap strings list fin_maps pretty.

Local Set Warnings "-register-all".

(** ** Python values

    Container and volume definitions are dictionaries with string keys
    whose values come from YAML/JSON: null, booleans, integers, strings,
    lists and nested dictionaries.  Floating-point numbers are left out. *)

Inductive value : Type :=
| VNone
| VBool (b : bool)
| VInt (n : Z)
| VStr (s : string)
| VList (l : list value)
| VDict (d : gmap string value).

(** A record (one container or volume definition) is a Python [dict]. *)
Abbreviation record := (gmap string value).

Fixpoint vsize (v : value) : nat :=
  match v with
  | VList l => S (foldr (λ x n, vsize x + n) 0 l)
  | VDict d => S (map_fold (λ _ x n, vsize x + n) 0 d)
  | _ => 1
  end.

Lemma vsize_list_elem (l : list value) (x : value) :
  x ∈ l → vsize x < vsize (VList l).
Proof.
  simpl. induction 1 as [x l|x y l _ IH]; simpl in *; lia.
Qed.

Lemma vsize_dict_elem (d : gmap string value) (k : string) (x : value) :
  d !! k = Some x → vsize x < vsize (VDict d).
Proof.
  simpl. revert k x.
  induction d as [|i y m Hi IH] using map_ind; intros k x Hk.
  - by rewrite lookup_empty in Hk.
  - rewrite map_fold_insert_L; [|intros; lia|done].
    destruct (decide (i = k)) as [->|Hne].
    + rewrite lookup_insert_eq in Hk. injection Hk as ->. lia.
    + rewrite lookup_insert_ne in Hk; [|done]. specialize (IH _ _ Hk). lia.
Qed.

(** Structural equality is decidable.  The deciders for the elements of a
    list or dictionary are only needed on the members of the left one. *)

Definition list_eq_dec_on (l1 : list value) :
  (∀ x, x ∈ l1 → ∀ y, Decision (x = y)) → ∀ l2, Decision (l1 = l2).
Proof.
  induction l1 as [|x l1 IH]; intros dec [|y l2].
  - left; reflexivity.
  - right; discriminate.
  - right; discriminate.
  - destruct (dec x (list_elem_of_here _ _) y) as [->|Hne].
    + destruct (IH (λ z Hz, dec z (list_elem_of_further _ _ _ Hz)) l2)
        as [->|Hne].
      * left; reflexivity.
      * right; congruence.
    + right; congruence.
Defined.

Definition items_eq_dec_on (l1 : list (string * value)) :
  (∀ k x, (k, x) ∈ l1 → ∀ y, Decision (x = y)) → ∀ l2, Decision (l1 = l2).
Proof.
  induction l1 as [|[k x] l1 IH]; intros dec [|[k' y] l2].
  - left; reflexivity.
  - right; discriminate.
  - right; discriminate.
  - destruct (decide (k = k')) as [->|Hk]; [|right; congruence].
    destruct (dec k' x (list_elem_of_here _ _) y) as [->|Hne].
    + destruct (IH (λ j z Hz, dec j z (list_elem_of_further _ _ _ Hz)) l2)
        as [->|Hne].
      * left; reflexivity.
      * right; congruence.
    + right; congruence.
Defined.

Definition value_eq_dec_bounded (n : nat) :
  ∀ x : value, vsize x < n → ∀ y : value, Decision (x = y).
Proof.
  induction n as [|n IH]; intros x Hx y; [exfalso; lia|].
  destruct x as [|b|z|s|l|d], y as [|b'|z'|s'|l'|d'];
    try (right; discriminate).
  - left; reflexivity.
  - destruct (decide (b = b')) as [->|]; [left; reflexivity|right; congruence].
  - destruct (decide (z = z')) as [->|]; [left; reflexivity|right; congruence].
  - destruct (decide (s = s')) as [->|]; [left; reflexivity|right; congruence].
  - destruct (list_eq_dec_on l) with (l2 := l') as [->|Hne].
    + intros x Hin. apply IH. apply vsize_list_elem in Hin. lia.
    + left; reflexivity.
    + right; congruence.
  - destruct (items_eq_dec_on (map_to_list d)) with (l2 := map_to_list d')
      as [Heq|Hne].
    + intros k x Hin. apply IH. apply elem_of_map_to_list in Hin.
      apply vsize_dict_elem in Hin. lia.
    + left. f_equal.
      rewrite <-(list_to_map_to_list d), Heq. apply list_to_map_to_list.
    + right. intros [= ->]. done.
Defined.

Global Instance value_eq_dec : EqDecision value :=
  λ x y, value_eq_dec_bounded (S (vsize x)) x (Nat.lt_succ_diag_r _) y.

(** Python's [==].  It is structural, except that [bool] is a subclass of
    [int]: [True == 1] and [False == 0], also inside lists and
    dictionaries.  Two values are [==] when they agree once every boolean
    is read as its integer. *)

Fixpoint as_int (v : value) : value :=
  match v with
  | VBool b => VInt (if b then 1 else 0)
  | VList l => VList (as_int <$> l)
  | VDict d => VDict (as_int <$> d)
  | _ => v
  end.

Definition py_eq (a b : value) : bool := bool_decide (as_int a = as_int b).

(** Truth value testing ([__nonzero__] / [__len__]): [None], [False], [0],
    the empty string, list and dictionary are false. *)

Class PyBool (A : Type) := py_bool : A → bool.

Global Instance string_py_bool : PyBool string :=
  λ s, match s with EmptyString => false | String _ _ => true end.
Global Instance Z_py_bool : PyBool Z :=
  λ n, negb (n =? 0)%Z.
Global Instance list_py_bool {A} : PyBool (list A) :=
  λ l, match l with [] => false | _ :: _ => true end.
Global Instance dict_py_bool : PyBool record :=
  λ d, bool_decide (d ≠ ∅).
(** [None] is false; any other object answers for itself. *)
Global Instance option_py_bool {A} `{PyBool A} : PyBool (option A) :=
  λ o, match o with None => false | Some a => py_bool a end.

(** [a or b] *)
Definition py_or {A} `{PyBool A} (a b : A) : A :=
  if py_bool a then a else b.

(** ** Exceptions *)

Inductive exception : Type :=
| KeyError (k : string)
| ClientError (code : string)        (* botocore.exceptions.ClientError *)
| BotoCoreError (name : string)      (* any other botocore exception *)
| NoAuthHandlerFound (msg : string). (* boto.exception.NoAuthHandlerFound *)

(** A computation that returns or raises. *)
Inductive py (A : Type) : Type :=
| ret (a : A)
| raise (e : exception).
Arguments ret {A} a.
Arguments raise {A} e.

Global Instance py_bind : MBind py := λ A B k m,
  match m with
  | ret a => k a
  | raise e => raise e
  end.

(** [d[k]] *)
Definition getitem (d : record) (k : string) : py value :=
  match d !! k with
  | Some v => ret v
  | None => raise (KeyError k)
  end.

(** [dict(item, **update)]: a new dictionary with the entries of [item],
    then those of [update] written over them. *)
Definition dict_update (item update : record) : record := update ∪ item.

(** ** merge_lists *)

(** [next((u for u in updates if u[key] == item[key]), None)] *)
Fixpoint next_update (updates : list record) (item : record) (key : string)
  : py (option record) :=
  match updates with
  | [] => ret None
  | u :: updates' =>
      uk ← getitem u key;
      ik ← getitem item key;
      if py_eq uk ik then ret (Some u) else next_update updates' item key
  end.

(** [next((i for i in items if i[key] == update[key]), None)] *)
Fixpoint next_existing (items : list record) (update : record) (key : string)
  : py (option record) :=
  match items with
  | [] => ret None
  | i :: items' =>
      ik ← getitem i key;
      uk ← getitem update key;
      if py_eq ik uk then ret (Some i) else next_existing items' update key
  end.

(** The first loop, [for item in items], appending to [result]. *)
Fixpoint update_existing (items updates : list record) (key : string)
    (result : list record) : py (list record) :=
  match items with
  | [] => ret result
  | item :: items' =>
      update ← next_update updates item key;
      match update with
      | Some u =>
          if py_bool u
          then update_existing items' updates key (result ++ [dict_update item u])
          else update_existing items' updates key (result ++ [item])
      | None => update_existing items' updates key (result ++ [item])
      end
  end.

(** The second loop, [for update in updates]; [items] is the original
    list, not [result]. *)
Fixpoint create_new (updates items : list record) (key : string)
    (result : list record) : py (list record) :=
  match updates with
  | [] => ret result
  | update :: updates' =>
      existing ← next_existing items update key;
      match existing with
      | Some i =>
          if negb (py_bool i)
          then create_new updates' items key (result ++ [update])
          else create_new updates' items key result
      | None => create_new updates' items key (result ++ [update])
      end
  end.

Definition merge_lists (items updates : list record) (key : string)
  : py (list record) :=
  result ← update_existing items updates key [];
  create_new updates items key result.

(** ** The remote service *)

(** The [taskDefinition] dictionary of an ECS response.  The service
    always fills in the ARN, the family and both lists, so the dictionary
    is never empty; [status] is looked up with ['status' in existing]
    and may be missing. *)
Record task_definition : Type := {
  taskDefinitionArn : string;
  td_family : string;
  td_status : option string;
  td_containerDefinitions : list record;
  td_volumes : list record
}.

Global Instance task_definition_py_bool : PyBool task_definition := λ _, true.

(** The boto3 ECS client ([self.ecs]).  Each operation answers with the
    [taskDefinition] of its response or raises.  Arguments are passed as
    the module passes them, [None] included. *)
Record ecs_client : Type := {
  describe_task_definition : option string → py task_definition;
  register_task_definition :
    option string → option (list record) → option (list record)
    → py task_definition;
  deregister_task_definition : option string → py task_definition
}.

(** The remote calls an invocation makes, in order. *)
Inductive call : Type :=
| Describe (taskDefinition : option string)
| Register (family : option string)
    (containerDefinitions volumes : option (list record))
| Deregister (taskDefinition : option string).

(** ** The Ansible module object *)

(** The choices of [state]. *)
Inductive state_choice : Type := present | absent | update.

(** [module.params], typed by [argument_spec].  A key may be missing from
    the dictionary (outer [None]) or be bound to [None] (inner [None]). *)
Record params_dict : Type := {
  state : state_choice;
  arn : option (option string);
  family : option (option string);
  revision : option (option Z);
  containers : option (option (list record));
  volumes : option (option (list record))
}.

Record AnsibleModule : Type := {
  params : params_dict;
  check_mode : bool
}.

(** ['k' in module.params] *)
Definition contains {A} (entry : option (option A)) : bool :=
  match entry with Some _ => true | None => false end.

(** [module.params.get('k')] *)
Definition get {A} (entry : option (option A)) : option A :=
  match entry with Some v => v | None => None end.

(** What surrounds [main]: the outcome of the two guarded imports and of
    the connection set-up in [EcsTaskManager.__init__]. *)
Record environment : Type := {
  HAS_BOTO : bool;
  HAS_BOTO3 : bool;
  region : option string;
  boto3_conn : py ecs_client
}.

(** How an invocation ends: [module.exit_json] with the entries of
    [results], [module.fail_json] with a message, or an exception nobody
    catches. *)
Inductive outcome : Type :=
| exit_json (changed : bool) (taskdefinition : option task_definition)
| fail_json (msg : string)
| uncaught (e : exception).

(** A step of [main]: the remote calls it made, and either a value to go
    on with or the end of the invocation. *)
Definition io (A : Type) : Type := (list call * (outcome + A))%type.

Definition io_ret {A} (a : A) : io A := ([], inr a).

Definition halt {A} (o : outcome) : io A := ([], inl o).

Global Instance io_bind : MBind io := λ A B k m,
  match m with
  | (t, inl o) => (t, inl o)
  | (t, inr a) => let '(t', r) := k a in (t ++ t', r)
  end.

(** A Python computation inside [main]: an exception ends the run. *)
Definition lift {A} (m : py A) : io A :=
  match m with
  | ret a => io_ret a
  | raise e => halt (uncaught e)
  end.

(** A remote call is recorded whether it returns or raises. *)
Definition remote {A} (c : call) (m : py A) : io (py A) := ([c], inr m).

(** ** EcsTaskManager *)

Definition EcsTaskManager (env : environment) : io ecs_client :=
  if negb (py_bool (region env))
  then halt (fail_json "Region must be specified as a parameter, in EC2_REGION or AWS_REGION environment variables or in boto configuration file")
  else match boto3_conn env with
       | ret ecs => io_ret ecs
       | raise (NoAuthHandlerFound e) =>
           halt (fail_json ("Can't authorize connection - " +:+ e))
       | raise e => halt (uncaught e)
       end.

Definition describe_task (ecs : ecs_client) (task_name : option string)
  : io (option task_definition) :=
  response ← remote (Describe task_name) (describe_task_definition ecs task_name);
  match response with
  | ret td => io_ret (Some td)
  | raise (ClientError _) => io_ret None
  | raise e => halt (uncaught e)
  end.

Definition register_task (ecs : ecs_client) (family : option string)
    (container_definitions volumes : option (list record))
  : io task_definition :=
  response ← remote (Register family container_definitions volumes)
    (register_task_definition ecs family container_definitions volumes);
  lift response.

Definition deregister_task (ecs : ecs_client) (taskArn : option string)
  : io task_definition :=
  response ← remote (Deregister taskArn) (deregister_task_definition ecs taskArn);
  lift response.

(** ** main *)

(** The end of a run: the calls made and the outcome. *)
Definition finish (m : io outcome) : list call * outcome :=
  match m with
  | (t, inl o) => (t, o)
  | (t, inr o) => (t, o)
  end.

(** ['status' in existing and existing['status'] == s] *)
Definition status_is (existing : task_definition) (s : string) : bool :=
  match td_status existing with
  | Some s' => bool_decide (s' = s)
  | None => false
  end.

(** The identifier to look up, by [state]. *)
Definition task_to_describe (module : AnsibleModule) : io (option string) :=
  let p := params module in
  match state p with
  | absent =>
      match arn p with
      | Some (Some a) => io_ret (Some a)
      | _ =>
          match family p, revision p with
          | Some (Some f), Some (Some r) => io_ret (Some (f +:+ ":" +:+ pretty r))
          | _, _ =>
              halt (fail_json "To use task definitions, an arn or family and revision must be specified")
          end
      end
  | present =>
      if negb (contains (family p))
      then halt (fail_json "To use task definitions, a family must be specified")
      else if negb (contains (containers p))
      then halt (fail_json "To use task definitions, a list of containers must be specified")
      else io_ret (get (family p))
  | update =>
      let t := py_or (get (arn p)) (get (family p)) in
      if negb (py_bool t)
      then halt (fail_json "To update a task definition, an arn or family must be specified")
      else
        match get (revision p) with
        | Some r =>
            if py_bool r
            then io_ret ((λ s, s +:+ ":" +:+ pretty r) <$> t)
            else io_ret t
        | None => io_ret t
        end
  end.

(** In [update], the list merged for one sub-resource: [merge_lists] when
    the parameter is given and non-empty, the initial [[]] otherwise. *)
Definition updated_list (existing : list record)
    (param : option (option (list record))) : io (list record) :=
  match get param with
  | Some given =>
      if py_bool given
      then lift (merge_lists existing given "name")
      else io_ret []
  | None => io_ret []
  end.

(** The branch on [state] once the lookup has answered. *)
Definition reconcile (task_mgr : ecs_client) (module : AnsibleModule)
    (task_to_describe : option string) (existing : option task_definition)
  : io outcome :=
  let p := params module in
  match state p with
  | present =>
      if py_bool existing
         && from_option (λ td, status_is td "ACTIVE") false existing
      then io_ret (exit_json false existing)
      else
        if negb (check_mode module)
        then
          let volumes :=
            if contains (volumes p) then get (volumes p) else Some [] in
          let volumes := default [] volumes in
          td' ← register_task task_mgr (get (family p))
                  (get (containers p)) (Some volumes);
          io_ret (exit_json true (Some td'))
        else io_ret (exit_json true None)
  | update =>
      if negb (check_mode module)
      then
        match existing with
        | None =>
            halt (fail_json "No existing task definition to update could be found")
        | Some td =>
            updated_containers ←
              updated_list (td_containerDefinitions td) (containers p);
            updated_volumes ←
              updated_list (td_volumes td) (volumes p);
            td' ← register_task task_mgr
                    (py_or (get (family p)) (Some (td_family td)))
                    (py_or (Some updated_containers)
                       (Some (td_containerDefinitions td)))
                    (py_or (Some updated_volumes) (Some (td_volumes td)));
            io_ret (exit_json true (Some td'))
        end
      else io_ret (exit_json true None)
  | absent =>
      match existing with
      | None => io_ret (exit_json false None)
      | Some td =>
          if status_is td "INACTIVE"
          then io_ret (exit_json false (Some td))
          else
            if negb (check_mode module)
            then
              _ ← deregister_task task_mgr task_to_describe;
              io_ret (exit_json true (Some td))
            else io_ret (exit_json true (Some td))
      end
  end.

Definition main (env : environment) (module : AnsibleModule)
  : list call * outcome :=
  finish (
    _ ← (if negb (HAS_BOTO env)
         then halt (fail_json "boto is required.") else io_ret ());
    _ ← (if negb (HAS_BOTO3 env)
         then halt (fail_json "boto3 is required.") else io_ret ());
    t ← task_to_describe module;
    task_mgr ← EcsTaskManager env;
    existing ← describe_task task_mgr t;
    reconcile task_mgr module t existing).

(** ** A stand-in remote store

    An ECS service holding at most one task definition: the lookup finds
    it or raises the client error for an unknown definition; registering
    answers with a fresh ACTIVE revision, deregistering with the
    definition turned INACTIVE. *)

Definition registered (family : option string)
    (containers volumes : option (list record)) : task_definition :=
  {| taskDefinitionArn := "arn:aws:ecs:task-definition/" +:+ default "" family;
     td_family := default "" family;
     td_status := Some "ACTIVE";
     td_containerDefinitions := default [] containers;
     td_volumes := default [] volumes |}.

Definition deregistered (td : task_definition) : task_definition :=
  {| taskDefinitionArn := taskDefinitionArn td;
     td_family := td_family td;
     td_status := Some "INACTIVE";
     td_containerDefinitions := td_containerDefinitions td;
     td_volumes := td_volumes td |}.

Definition store_client (stored : option task_definition) : ecs_client :=
  {| describe_task_definition := λ _,
       match stored with
       | Some td => ret td
       | None => raise (ClientError "ClientException")
       end;
     register_task_definition := λ f c v, ret (registered f c v);
     deregister_task_definition := λ _,
       match stored with
       | Some td => ret (deregistered td)
       | None => raise (ClientError "ClientException")
       end |}.

Definition store_env (stored : option task_definition) : environment :=
  {| HAS_BOTO := true; HAS_BOTO3 := true; region := Some "us-east-1";
     boto3_conn := ret (store_client stored) |}.

Definition app_1 : record := {[ "name" := VStr "app"; "image" := VStr "x:1" ]}.
Definition app_2 : record := {[ "name" := VStr "app"; "image" := VStr "x:2" ]}.
Definition sidecar : record := {[ "name" := VStr "sidecar"; "image" := VStr "y:1" ]}.
Definition my_vol : record := {[ "name" := VStr "my-vol" ]}.

Definition svc (status : string) (cs vs : list record) : task_definition :=
  {| taskDefinitionArn := "arn:svc:3"; td_family := "svc";
     td_status := Some status;
     td_containerDefinitions := cs; td_volumes := vs |}.

Definition invocation (st : state_choice) (a f : option string)
    (r : option Z) (cs vs : option (list record)) (dry : bool)
  : AnsibleModule :=
  {| params := {| state := st; arn := Some a; family := Some f;
                  revision := Some r; containers := Some cs;
                  volumes := Some vs |};
     check_mode := dry |}.

(** ** The merge contract, as the specification words it

    Two records share their key when both carry the key field and the
    two values are [==]. *)
Definition same_key (key : string) (a b : record) : bool :=
  match a !! key, b !! key with
  | Some x, Some y => py_eq x y
  | _, _ => false
  end.

Definition has_key (key : string) (r : record) : bool :=
  match r !! key with Some _ => true | None => false end.

(** A shallow overlay: a field of [update] wins, a field only [item] has
    is kept. *)
Definition overlay (item update : record) : record :=
  merge (λ old new, match new with Some v => Some v | None => old end)
    item update.

(** What is emitted for one record of [items]. *)
Definition emitted (key : string) (updates : list record) (item : record)
  : record :=
  match find (λ u, same_key key u item) updates with
  | Some u => overlay item u
  | None => item
  end.

(** The records of [updates] whose key matches no record of [items]. *)
Definition brand_new (key : string) (items updates : list record)
  : list record :=
  List.filter (λ u, negb (existsb (λ i, same_key key i u) items)) updates.

Definition merge_contract (key : string) (items updates : list record)
  : list record :=
  (emitted key updates <$> items) ++ brand_new key items updates.

(** Every record carries the key field and no two records share a key. *)
Fixpoint distinct_keys (key : string) (l : list record) : bool :=
  match l with
  | [] => true
  | u :: l' =>
      has_key key u
      && forallb (λ u', negb (same_key key u u')) l'
      && distinct_keys key l'
  end.

(** Some invocations against the stand-in store. *)

(** Scenario A: [present] for family svc with one container. *)
Definition present_svc (dry : bool) : AnsibleModule :=
  invocation present None (Some "svc") None (Some [app_1]) None dry.

(** [present] with neither family nor containers given: Ansible binds
    every parameter left out to [None]. *)
Definition present_nothing_given : AnsibleModule :=
  invocation present None None None None None false.

(** Scenario C: [update] of the image of app. *)
Definition update_app (dry : bool) : AnsibleModule :=
  invocation update None (Some "svc") None (Some [app_2]) None dry.

(** [update] that gives a volume list and no container list. *)
Definition update_volumes_only : AnsibleModule :=
  invocation update None (Some "svc") None None (Some [my_vol]) false.

(** Scenario E: [update] of a family nobody registered. *)
Definition update_ghost (dry : bool) : AnsibleModule :=
  invocation update None (Some "ghost") None (Some [app_2]) None dry.

(** Scenario D: [absent] by identifier. *)
Definition absent_svc (dry : bool) : AnsibleModule :=
  invocation absent (Some "arn:svc:3") None None None None dry.

(** A service that refuses the lookup for lack of permission. *)
Definition denied_client : ecs_client :=
  {| describe_task_definition := λ _, raise (ClientError "AccessDeniedException");
     register_task_definition := λ f c v, ret (registered f c v);
     deregister_task_definition := λ _, raise (ClientError "AccessDeniedException") |}.

Definition denied_env : environment :=
  {| HAS_BOTO := true; HAS_BOTO3 := true; region := Some "us-east-1";
     boto3_conn := ret denied_client |}.

(** ** Vocabulary for the statements about [main] *)

(** The environment lets [main] reach the remote service through [ecs]:
    both imports succeeded, a region is configured and the connection
    was set up. *)
Definition connects (env : environment) (ecs : ecs_client) : Prop :=
  HAS_BOTO env = true ∧ HAS_BOTO3 env = true
  ∧ py_bool (region env) = true ∧ boto3_conn env = ret ecs.

(** The lookup of [id] answers [existing]: the definition found, or
    [None] when the describe call raised a client error. *)
Definition looked_up (ecs : ecs_client) (id : option string)
    (existing : option task_definition) : Prop :=
  describe_task ecs id = ([Describe id], inr existing).

(** The invocation resolves its lookup identifier to [id]. *)
Definition resolves (module : AnsibleModule) (id : option string) : Prop :=
  task_to_describe module = io_ret id.

(** The rest of the run once the lookup has answered [existing]. *)
Definition after_lookup (ecs : ecs_client) (module : AnsibleModule)
    (id : option string) (existing : option task_definition)
  : list call * outcome :=
  finish (reconcile ecs module id existing).

(** The register calls among the remote calls made. *)
Definition is_register (c : call) : bool :=
  match c with Register _ _ _ => true | _ => false end.

(** The merged list of one sub-resource in [update], as the
    specification words it: the caller's list merged into the existing
    one by name when a list is supplied, the empty sequence otherwise. *)
Definition merged_result (existing : list record)
    (supplied : option (list record)) (merged : list record) : Prop :=
  match supplied with
  | Some given => merge_lists existing given "name" = ret merged
  | None => merged = []
  end.

(** "The merged list if it is non-empty, else the existing one." *)
Definition non_empty_or (merged existing : list record) : list record :=
  match merged with
  | [] => existing
  | _ :: _ => merged
  end.

(** "The caller's family if given, else the existing family"; an empty
    string counts as not given. *)
Definition family_or (supplied : option string) (existing : string)
  : string :=
  match supplied with
  | Some f => if bool_decide (f = "") then existing else f
  | None => existing
  end.

(** When [merge_lists] returns: one of the lists is empty (then no key is
    ever read), or every record of both carries the key. *)
Definition merge_returns (key : string) (items updates : list record)
  : bool :=
  match items, updates with
  | [], _ | _, [] => true
  | _ :: _, _ :: _ =>
      forallb (has_key key) items && forallb (has_key key) updates
  end.

(** The calls that change the remote store. *)
Definition is_mutating (c : call) : bool :=
  match c with Describe _ => false | _ => true end.

Definition is_deregister (c : call) : bool :=
  match c with Deregister _ => true | _ => false end.

(** What the service answers to a call. *)
Definition response (ecs : ecs_client) (c : call) : py task_definition :=
  match c with
  | Describe id => describe_task_definition ecs id
  | Register f cs vs => register_task_definition ecs f cs vs
  | Deregister id => deregister_task_definition ecs id
  end.

(** No colon in the string: true of every printed integer. *)
Fixpoint colon_free (s : string) : bool :=
  match s with
  | EmptyString => true
  | String c s' => negb (Ascii.eqb c ":"%char) && colon_free s'
  end.

(** The identifier [update] builds from a base (arn or family): the
    revision follows after a colon when one is given and is not zero. *)
Definition with_revision (base : string) (revision : option Z) : string :=
  match revision with
  | Some r => if bool_decide (r = 0%Z) then base else base +:+ ":" +:+ pretty r
  | None => base
  end.

(** [present] called with the family key missing from the parameters. *)
Definition present_without_family_key : AnsibleModule :=
  {| params := {| state := present; arn := Some None; family := None;
                  revision := Some None; containers := Some (Some [app_1]);
                  volumes := Some None |};
     check_mode := false |}.

(** A container definition without a name. *)
Definition nameless : record := {[ "image" := VStr "x:3" ]}.

(** A second update of app, on another field. *)
Definition app_9 : record := {[ "name" := VStr "app"; "cpu" := VInt 9 ]}.

(** * Properties *)

(** ** The scenarios of the specification, run on the model *)

Example merge_scenario_C :
  merge_lists [app_1; sidecar] [app_2] "name" = ret [app_2; sidecar].
Proof. vm_compute. reflexivity. Qed.

(** An update that covers one field only keeps the other fields. *)
Example merge_keeps_other_fields :
  merge_lists [app_1] [{[ "name" := VStr "app"; "cpu" := VInt 10 ]}] "name"
  = ret [{[ "name" := VStr "app"; "image" := VStr "x:1"; "cpu" := VInt 10 ]}].
Proof. vm_compute. reflexivity. Qed.

(** A record without the key field raises as soon as it is compared. *)
Example merge_without_key :
  merge_lists [{[ "image" := VStr "x:1" ]}] [app_2] "name"
  = raise (KeyError "name").
Proof. vm_compute. reflexivity. Qed.

(** [True == 1]: keys are compared with Python's equality. *)
Example merge_bool_key :
  merge_lists [{[ "name" := VInt 1; "cpu" := VInt 10 ]}]
    [{[ "name" := VBool true ]}] "name"
  = ret [{[ "name" := VBool true; "cpu" := VInt 10 ]}].
Proof. vm_compute. reflexivity. Qed.

Example scenario_A :
  main (store_env None) (present_svc false)
  = ([Describe (Some "svc"); Register (Some "svc") (Some [app_1]) (Some [])],
     exit_json true (Some (registered (Some "svc") (Some [app_1]) (Some [])))).
Proof. vm_compute. reflexivity. Qed.

Example scenario_B :
  main (store_env (Some (registered (Some "svc") (Some [app_1]) (Some []))))
    (present_svc false)
  = ([Describe (Some "svc")],
     exit_json false (Some (registered (Some "svc") (Some [app_1]) (Some [])))).
Proof. vm_compute. reflexivity. Qed.

Example scenario_C :
  main (store_env (Some (svc "ACTIVE" [app_1; sidecar] []))) (update_app false)
  = ([Describe (Some "svc");
      Register (Some "svc") (Some [app_2; sidecar]) (Some [])],
     exit_json true
       (Some (registered (Some "svc") (Some [app_2; sidecar]) (Some [])))).
Proof. vm_compute. reflexivity. Qed.

Example scenario_D :
  main (store_env (Some (svc "INACTIVE" [app_1] []))) (absent_svc false)
  = ([Describe (Some "arn:svc:3")],
     exit_json false (Some (svc "INACTIVE" [app_1] []))).
Proof. vm_compute. reflexivity. Qed.

Example scenario_E :
  main (store_env None) (update_ghost false)
  = ([Describe (Some "ghost")],
     fail_json "No existing task definition to update could be found").
Proof. vm_compute. reflexivity. Qed.

(** The lookup identifier: family and revision joined by a colon. *)
Example absent_by_family_and_revision :
  task_to_describe
    (invocation absent None (Some "svc") (Some 3%Z) None None false)
  = io_ret (Some "svc:3").
Proof. vm_compute. reflexivity. Qed.

Example absent_without_identifier :
  main (store_env None)
    (invocation absent None (Some "svc") None None None false)
  = ([], fail_json "To use task definitions, an arn or family and revision must be specified").
Proof. vm_compute. reflexivity. Qed.

Example update_with_revision :
  task_to_describe
    (invocation update None (Some "svc") (Some 12%Z) (Some [app_2]) None false)
  = io_ret (Some "svc:12").
Proof. vm_compute. reflexivity. Qed.

(** ** Python equality is an equivalence *)

Lemma py_eq_refl (a : value) : py_eq a a = true.
Proof. unfold py_eq. by apply bool_decide_eq_true. Qed.

Lemma py_eq_sym (a b : value) : py_eq a b = py_eq b a.
Proof. unfold py_eq. apply bool_decide_ext. split; congruence. Qed.

Lemma py_eq_trans (a b c : value) :
  py_eq a b = true → py_eq a c = py_eq b c.
Proof.
  unfold py_eq. intros Hab%bool_decide_eq_true.
  apply bool_decide_ext. by rewrite Hab.
Qed.

(** ** List helpers *)

Lemma find_ext_in {A} (f g : A → bool) (l : list A) :
  (∀ x, f x = g x) → find f l = find g l.
Proof.
  intros Hfg. induction l as [|x l IH]; simpl; [done|].
  rewrite Hfg. by rewrite IH.
Qed.

Lemma filter_all_false {A} (f : A → bool) (l : list A) :
  (∀ x, In x l → f x = false) → List.filter f l = [].
Proof.
  induction l as [|x l IH]; intros H; simpl; [done|].
  rewrite (H x) by (by left). apply IH. intros y Hy. apply H. by right.
Qed.

Lemma fmap_fixed {A} (f : A → A) (l : list A) :
  (∀ x, In x l → f x = x) → f <$> l = l.
Proof.
  induction l as [|x l IH]; intros H; [done|].
  rewrite fmap_cons, (H x) by (by left). f_equal. apply IH.
  intros y Hy. apply H. by right.
Qed.

(** ** Records compared on a key field *)

Section merge_facts.

Variable key : string.

Lemma same_key_sym (a b : record) :
  same_key key a b = same_key key b a.
Proof.
  unfold same_key. destruct (a !! key), (b !! key); try done. apply py_eq_sym.
Qed.

Lemma same_key_refl (a : record) :
  has_key key a = true → same_key key a a = true.
Proof.
  unfold has_key, same_key. destruct (a !! key); [|done]. intros _. apply py_eq_refl.
Qed.

Lemma same_key_trans (a b c : record) :
  same_key key a b = true → same_key key a c = same_key key b c.
Proof.
  unfold same_key.
  destruct (a !! key) as [x|], (b !! key) as [y|]; try done.
  intros Hxy. destruct (c !! key); [|done]. by apply py_eq_trans.
Qed.

Lemma same_key_has_key (a b : record) :
  same_key key a b = true → has_key key a = true ∧ has_key key b = true.
Proof.
  unfold same_key, has_key. by destruct (a !! key), (b !! key).
Qed.

(** A record with a field is a non-empty dictionary, hence true. *)
Lemma has_key_py_bool (r : record) :
  has_key key r = true → py_bool r = true.
Proof.
  unfold has_key, py_bool, dict_py_bool. intros H.
  apply bool_decide_eq_true. intros ->. by rewrite lookup_empty in H.
Qed.

Lemma getitem_has_key (r : record) :
  has_key key r = true → ∃ v, r !! key = Some v ∧ getitem r key = ret v.
Proof.
  unfold has_key, getitem. destruct (r !! key) as [v|]; [|done]. eauto.
Qed.

(** ** The overlay *)

Lemma dict_update_overlay (item update : record) :
  dict_update item update = overlay item update.
Proof.
  apply map_eq. intros f. unfold dict_update, overlay.
  rewrite lookup_union, lookup_merge.
  by destruct (update !! f), (item !! f).
Qed.

Lemma lookup_overlay (item update : record) (f : string) :
  overlay item update !! f
  = match update !! f with Some v => Some v | None => item !! f end.
Proof.
  unfold overlay. rewrite lookup_merge.
  by destruct (update !! f), (item !! f).
Qed.

Lemma overlay_idemp (item update : record) :
  overlay (overlay item update) update = overlay item update.
Proof.
  apply map_eq. intros f. rewrite !lookup_overlay. by destruct (update !! f).
Qed.

Lemma overlay_self (r : record) : overlay r r = r.
Proof.
  apply map_eq. intros f. rewrite lookup_overlay. by destruct (r !! f).
Qed.

Lemma same_key_overlay (item u c : record) :
  has_key key u = true → same_key key (overlay item u) c = same_key key u c.
Proof.
  unfold has_key, same_key. rewrite lookup_overlay. by destruct (u !! key).
Qed.

(** ** The two generators of [merge_lists] *)

Lemma next_update_find (updates : list record) (item : record) :
  forallb (has_key key) updates = true →
  has_key key item = true →
  next_update updates item key = ret (find (λ u, same_key key u item) updates).
Proof.
  intros Hus Hitem.
  destruct (getitem_has_key item Hitem) as (ik & Hik & Hget).
  induction updates as [|u updates IH]; simpl; [done|].
  simpl in Hus. apply andb_true_iff in Hus as [Hu Hus].
  destruct (getitem_has_key u Hu) as (uk & Huk & Hgetu).
  rewrite Hgetu, Hget. simpl.
  unfold same_key at 1. rewrite Huk, Hik.
  destruct (py_eq uk ik); [done|]. by apply IH.
Qed.

Lemma next_existing_find (items : list record) (update : record) :
  forallb (has_key key) items = true →
  has_key key update = true →
  next_existing items update key
  = ret (find (λ i, same_key key i update) items).
Proof.
  intros His Hupd.
  destruct (getitem_has_key update Hupd) as (uk & Huk & Hget).
  induction items as [|i items IH]; simpl; [done|].
  simpl in His. apply andb_true_iff in His as [Hi His].
  destruct (getitem_has_key i Hi) as (ik & Hik & Hgeti).
  rewrite Hgeti, Hget. simpl.
  unfold same_key at 1. rewrite Hik, Huk.
  destruct (py_eq ik uk); [done|]. by apply IH.
Qed.

Lemma find_same_key_has_key (l : list record) (r x : record) :
  find (λ y, same_key key y r) l = Some x → has_key key x = true.
Proof.
  intros [_ H]%find_some. by apply same_key_has_key in H as [? _].
Qed.

(** ** The two loops *)

Lemma update_existing_emitted (items updates acc : list record) :
  forallb (has_key key) items = true →
  forallb (has_key key) updates = true →
  update_existing items updates key acc
  = ret (acc ++ (emitted key updates <$> items)).
Proof.
  intros His Hus. revert acc His.
  induction items as [|item items IH]; intros acc His.
  { simpl. by rewrite app_nil_r. }
  simpl in His. apply andb_true_iff in His as [Hitem His].
  rewrite fmap_cons. cbn [update_existing].
  rewrite next_update_find by done. cbn [mbind py_bind].
  unfold emitted at 1.
  destruct (find _ updates) as [u|] eqn:Hfind.
  - rewrite (has_key_py_bool u) by (by eapply find_same_key_has_key).
    rewrite IH by done. by rewrite dict_update_overlay, <-app_assoc.
  - rewrite IH by done. by rewrite <-app_assoc.
Qed.

Lemma create_new_brand_new (updates items acc : list record) :
  forallb (has_key key) items = true →
  forallb (has_key key) updates = true →
  create_new updates items key acc
  = ret (acc ++ brand_new key items updates).
Proof.
  intros His. revert acc.
  induction updates as [|u updates IH]; intros acc Hus; simpl.
  { by rewrite app_nil_r. }
  simpl in Hus. apply andb_true_iff in Hus as [Hu Hus].
  rewrite next_existing_find by done. simpl.
  destruct (find _ items) as [i|] eqn:Hfind.
  - rewrite (has_key_py_bool i) by (by eapply find_same_key_has_key).
    simpl. apply find_some in Hfind as [Hin Hsame].
    assert (existsb (λ i, same_key key i u) items = true) as ->.
    { apply existsb_exists. eauto. }
    simpl. by apply IH.
  - assert (existsb (λ i, same_key key i u) items = false) as ->.
    { apply not_true_is_false. intros (i & Hin & Hsame)%existsb_exists.
      by rewrite (find_none _ _ Hfind i Hin) in Hsame. }
    simpl. rewrite IH by done. by rewrite <-app_assoc.
Qed.

(** With nothing to merge, the first loop copies [items]; no key is read. *)
Lemma update_existing_nil (items acc : list record) :
  update_existing items [] key acc = ret (acc ++ items).
Proof.
  revert acc. induction items as [|item items IH]; intros acc; simpl.
  - by rewrite app_nil_r.
  - rewrite IH. by rewrite <-app_assoc.
Qed.

(** A record of [items] without the key field stops the first loop as
    soon as there is an update to compare it with. *)
Lemma update_existing_KeyError (items : list record)
    (u : record) (updates acc : list record) :
  forallb (has_key key) (u :: updates) = true →
  forallb (has_key key) items = false →
  update_existing items (u :: updates) key acc = raise (KeyError key).
Proof.
  intros Hus. revert acc.
  induction items as [|item items IH]; intros acc His; [done|].
  cbn [update_existing].
  destruct (has_key key item) eqn:Hitem.
  - rewrite next_update_find by done. simpl in His. rewrite Hitem in His.
    cbn [mbind py_bind].
    destruct (find _ (u :: updates)) as [w|]; [destruct (py_bool w)|];
      by apply IH.
  - simpl in Hus. apply andb_true_iff in Hus as [Hu _].
    destruct (getitem_has_key u Hu) as (uk & _ & Hgetu).
    simpl. rewrite Hgetu. simpl.
    unfold getitem, has_key in *. by destruct (item !! key).
Qed.

(** ** The contract applied to its own result *)

Lemma distinct_keys_has_key (l : list record) :
  distinct_keys key l = true → forallb (has_key key) l = true.
Proof.
  induction l as [|u l IH]; simpl; [done|].
  intros [[Hu _]%andb_true_iff Hl]%andb_true_iff.
  rewrite Hu. simpl. by apply IH.
Qed.

(** With distinct keys, the first update sharing the key of an update is
    that update itself. *)
Lemma find_self (updates : list record) (u : record) :
  distinct_keys key updates = true →
  In u updates →
  find (λ u', same_key key u' u) updates = Some u.
Proof.
  induction updates as [|h updates IH]; simpl; [done|].
  intros [[Hh Hfresh]%andb_true_iff Hrest]%andb_true_iff [->|Hin].
  - by rewrite same_key_refl.
  - assert (same_key key h u = false) as ->.
    { rewrite forallb_forall in Hfresh. specialize (Hfresh u Hin).
      by apply negb_true_iff in Hfresh. }
    by apply IH.
Qed.

Lemma emitted_has_key (updates : list record) (item : record) :
  has_key key item = true → has_key key (emitted key updates item) = true.
Proof.
  intros Hitem. unfold emitted.
  destruct (find _ updates) as [u|] eqn:Hfind; [|done].
  apply find_same_key_has_key in Hfind.
  unfold has_key in *. rewrite lookup_overlay. by destruct (u !! key).
Qed.

Lemma emitted_same_key (updates : list record)
    (item c : record) :
  same_key key (emitted key updates item) c = same_key key item c.
Proof.
  unfold emitted. destruct (find _ updates) as [u|] eqn:Hfind; [|done].
  pose proof (find_same_key_has_key _ _ _ Hfind) as Hu.
  apply find_some in Hfind as [_ Hsame].
  rewrite same_key_overlay by done. by apply same_key_trans.
Qed.

Lemma emitted_idemp (updates : list record) (item : record) :
  emitted key updates (emitted key updates item) = emitted key updates item.
Proof.
  unfold emitted at 1.
  rewrite (find_ext_in _ (λ u, same_key key u item)); last first.
  { intros u. by rewrite same_key_sym, emitted_same_key, same_key_sym. }
  unfold emitted.
  destruct (find _ updates) as [u|]; [|done]. apply overlay_idemp.
Qed.

Lemma merge_contract_has_key (items updates : list record) :
  forallb (has_key key) items = true →
  forallb (has_key key) updates = true →
  forallb (has_key key) (merge_contract key items updates) = true.
Proof.
  intros His Hus. unfold merge_contract.
  rewrite forallb_app. apply andb_true_iff. split.
  - apply forallb_forall. intros r Hr.
    apply list_elem_of_In, list_elem_of_fmap in Hr as (item & -> & Hin).
    apply emitted_has_key.
    rewrite forallb_forall in His. by apply His, list_elem_of_In.
  - apply forallb_forall. intros u [Hu _]%filter_In.
    rewrite forallb_forall in Hus. by apply Hus.
Qed.

Lemma merge_contract_fixed (items updates : list record) :
  distinct_keys key updates = true →
  merge_contract key (merge_contract key items updates) updates
  = merge_contract key items updates.
Proof.
  intros Hdist.
  pose proof (distinct_keys_has_key _ Hdist) as Hus.
  unfold merge_contract at 1.
  assert (brand_new key (merge_contract key items updates) updates = []) as ->.
  { apply filter_all_false. intros u Hu. apply negb_false_iff.
    unfold merge_contract. rewrite existsb_app.
    destruct (existsb (λ i, same_key key i u) items) eqn:Hex.
    - apply existsb_exists in Hex as (item & Hin & Hsame).
      apply orb_true_iff. left. apply existsb_exists.
      exists (emitted key updates item). split.
      + by apply list_elem_of_In, list_elem_of_fmap_2, list_elem_of_In.
      + by rewrite emitted_same_key.
    - apply orb_true_iff. right. apply existsb_exists.
      exists u. split.
      + apply filter_In. by rewrite Hex.
      + apply same_key_refl. rewrite forallb_forall in Hus. by apply Hus. }
  rewrite app_nil_r. apply fmap_fixed. intros r Hr.
  unfold merge_contract in Hr. apply in_app_iff in Hr as [Hr|Hr].
  - apply list_elem_of_In, list_elem_of_fmap in Hr as (item & -> & _).
    apply emitted_idemp.
  - apply filter_In in Hr as [Hr _].
    unfold emitted. rewrite find_self by done. apply overlay_self.
Qed.

(** ** merge_lists meets the contract *)

Lemma merge_lists_ret (items updates : list record) :
  forallb (has_key key) items = true →
  forallb (has_key key) updates = true →
  merge_lists items updates key = ret (merge_contract key items updates).
Proof.
  intros His Hus. unfold merge_lists.
  rewrite update_existing_emitted by done. cbn [mbind py_bind app].
  by rewrite create_new_brand_new.
Qed.

Lemma merge_lists_nil (items : list record) :
  merge_lists items [] key = ret items.
Proof.
  unfold merge_lists. by rewrite update_existing_nil.
Qed.

Lemma merge_lists_KeyError (items : list record)
    (u : record) (updates : list record) :
  forallb (has_key key) (u :: updates) = true →
  forallb (has_key key) items = false →
  merge_lists items (u :: updates) key = raise (KeyError key).
Proof.
  intros Hus His. unfold merge_lists.
  by rewrite update_existing_KeyError.
Qed.

End merge_facts.

(** ** The list merger *)

(** C8.  Merging an empty list of updates returns [items]: the same
    records in the same order, whatever the records and the key are. *)
Theorem merge_lists_identity (items : list record) (key : string) :
  merge_lists items [] key = ret items.
Proof. apply merge_lists_nil. Qed.

(** With a key repeated in [updates], the item sharing it is overlaid
    with the first such update only: the later one is neither overlaid
    nor appended.  Here the second update of app (its cpu field) is in
    no record of the result. *)
Lemma merge_lists_repeated_key_drops_update :
  (forallb (has_key "name") [app_1; sidecar] = true
   ∧ forallb (has_key "name") [app_2; app_9] = true)
  ∧ merge_lists [app_1; sidecar] [app_2; app_9] "name"
    = ret [app_2; sidecar]
  ∧ In app_9 [app_2; app_9]
  ∧ forallb (λ r : record, bool_decide (r !! "cpu" = None)) [app_2; sidecar]
    = true.
Proof.
  split; [split; reflexivity|]. split; [reflexivity|].
  split; [right; left; reflexivity|reflexivity].
Qed.

(** What holds whether or not [updates] repeats a key: the result is the
    contract, taken with the first update sharing an item's key. *)
Lemma merge_lists_first_match (key : string) (items updates : list record) :
  forallb (has_key key) items = true →
  forallb (has_key key) updates = true →
  merge_lists items updates key = ret (merge_contract key items updates)
  ∧ length (merge_contract key items updates)
    = length items + length (brand_new key items updates).
Proof.
  intros His Hus. split; [by apply merge_lists_ret|].
  unfold merge_contract. by rewrite length_app, length_fmap.
Qed.

(** With distinct keys in [updates], the update overlaid on an item is
    the one update sharing its key. *)
Lemma emitted_shared (key : string) (updates : list record)
    (item u : record) :
  distinct_keys key updates = true →
  In u updates →
  same_key key u item = true →
  emitted key updates item = overlay item u.
Proof.
  intros Hdist Hu Hsame. unfold emitted.
  rewrite (find_ext_in _ (λ u', same_key key u' u)).
  - by rewrite find_self.
  - intros u'. rewrite (same_key_sym key u' u).
    rewrite (same_key_trans key u item u') by done.
    apply same_key_sym.
Qed.

(** C1, as the code has it.  When every record of [items] carries the
    key field and the records of [updates] carry pairwise distinct keys,
    [merge_lists] returns, for each record of [items] in order, that
    record overlaid with the updates record sharing its key (its fields
    win, the other fields of the item are kept) or the record itself
    when no update shares its key, followed by the updates records whose
    key matches no record of [items], in the order of [updates].  No
    record is dropped: there is one output record per item, and every
    update is overlaid on an item sharing its key, the overlay being in
    the output, or is itself in the output. *)
Theorem merge_lists_contract (key : string) (items updates : list record) :
  forallb (has_key key) items = true →
  distinct_keys key updates = true →
  merge_lists items updates key = ret (merge_contract key items updates)
  ∧ length (merge_contract key items updates)
    = length items + length (brand_new key items updates)
  ∧ (∀ item u, In item items → In u updates →
       same_key key u item = true →
       emitted key updates item = overlay item u)
  ∧ ∀ u, In u updates →
      (∃ item, In item items ∧ same_key key u item = true
               ∧ In (overlay item u) (merge_contract key items updates))
      ∨ (existsb (λ i, same_key key i u) items = false
         ∧ In u (merge_contract key items updates)).
Proof.
  intros His Hdist.
  pose proof (distinct_keys_has_key _ _ Hdist) as Hus.
  destruct (merge_lists_first_match key items updates His Hus) as [Hret Hlen].
  split; [done|]. split; [done|]. split.
  - intros item u _ Hu Hsame. by apply emitted_shared.
  - intros u Hu.
    destruct (existsb (λ i, same_key key i u) items) eqn:Hex.
    + left. apply existsb_exists in Hex as (item & Hitem & Hsame).
      rewrite same_key_sym in Hsame.
      exists item. split; [done|]. split; [done|].
      rewrite <-(emitted_shared key updates item u) by done.
      unfold merge_contract. apply in_app_iff. left.
      by apply list_elem_of_In, list_elem_of_fmap_2, list_elem_of_In.
    + right. split; [done|].
      unfold merge_contract. apply in_app_iff. right.
      apply filter_In. by rewrite Hex.
Qed.

Lemma merge_lists_contract_witness :
  (forallb (has_key "name") [app_1; sidecar] = true
   ∧ distinct_keys "name" [app_2; my_vol] = true)
  ∧ merge_lists [app_1; sidecar] [app_2; my_vol] "name"
    = ret (merge_contract "name" [app_1; sidecar] [app_2; my_vol]).
Proof.
  split; [split; reflexivity|].
  apply (merge_lists_contract "name" [app_1; sidecar] [app_2; my_vol]);
    reflexivity.
Defined.

(** C9.  When the records of [updates] carry pairwise distinct keys
    (no two of them [==] on the key field), merging [updates] into the
    result of merging them once changes nothing: the second merge
    returns what the first returned (and when the first raises, there is
    no second). *)
Theorem merge_lists_idempotent (key : string) (items updates : list record) :
  distinct_keys key updates = true →
  (merged ← merge_lists items updates key; merge_lists merged updates key)
  = merge_lists items updates key.
Proof.
  intros Hdist.
  pose proof (distinct_keys_has_key _ _ Hdist) as Hus.
  destruct (forallb (has_key key) items) eqn:His.
  - rewrite merge_lists_ret by done. cbn [mbind py_bind].
    rewrite merge_lists_ret by (by try apply merge_contract_has_key).
    by rewrite merge_contract_fixed.
  - destruct updates as [|u updates].
    + rewrite merge_lists_nil. cbn [mbind py_bind]. apply merge_lists_nil.
    + by rewrite merge_lists_KeyError.
Qed.

Lemma merge_lists_idempotent_witness :
  distinct_keys "name" [app_2; my_vol] = true
  ∧ (merged ← merge_lists [app_1; sidecar] [app_2; my_vol] "name";
     merge_lists merged [app_2; my_vol] "name")
    = ret [app_2; sidecar; my_vol].
Proof.
  split; [reflexivity|].
  rewrite (merge_lists_idempotent "name" [app_1; sidecar] [app_2; my_vol]);
    reflexivity.
Defined.

(** ** Running [main] *)

Lemma main_connected (env : environment) (ecs : ecs_client)
    (module : AnsibleModule) (id : option string) :
  connects env ecs →
  resolves module id →
  main env module
  = finish (existing ← describe_task ecs id; reconcile ecs module id existing).
Proof.
  intros (Hb & Hb3 & Hr & Hc) Hid. unfold main, EcsTaskManager.
  rewrite Hb, Hb3, Hid, Hr, Hc. simpl.
  destruct (describe_task ecs id) as [t [o|existing]]; simpl; [done|].
  by destruct (reconcile ecs module id existing) as [t' [o|o]].
Qed.

Lemma main_looked_up (env : environment) (ecs : ecs_client)
    (module : AnsibleModule) (id : option string)
    (existing : option task_definition) :
  connects env ecs →
  resolves module id →
  looked_up ecs id existing →
  main env module
  = (Describe id :: (after_lookup ecs module id existing).1,
     (after_lookup ecs module id existing).2).
Proof.
  intros Hc Hid Hex. rewrite (main_connected env ecs module id) by done.
  rewrite Hex. unfold after_lookup. simpl.
  by destruct (reconcile ecs module id existing) as [t' [o|o]].
Qed.

(** A client error from the describe call is read as "nothing there";
    any other exception leaves [describe_task]. *)
Lemma describe_task_ClientError (ecs : ecs_client) (id : option string)
    (code : string) :
  describe_task_definition ecs id = raise (ClientError code) →
  looked_up ecs id None.
Proof. intros H. unfold looked_up, describe_task. simpl. by rewrite H. Qed.

Lemma describe_task_returns (ecs : ecs_client) (id : option string)
    (td : task_definition) :
  describe_task_definition ecs id = ret td →
  looked_up ecs id (Some td).
Proof. intros H. unfold looked_up, describe_task. simpl. by rewrite H. Qed.

Lemma register_task_run (ecs : ecs_client) (f : option string)
    (c v : option (list record)) :
  register_task ecs f c v
  = ([Register f c v],
     match register_task_definition ecs f c v with
     | ret td => inr td
     | raise e => inl (uncaught e)
     end).
Proof.
  unfold register_task. simpl.
  by destruct (register_task_definition ecs f c v).
Qed.

Lemma deregister_task_run (ecs : ecs_client) (id : option string) :
  deregister_task ecs id
  = ([Deregister id],
     match deregister_task_definition ecs id with
     | ret td => inr td
     | raise e => inl (uncaught e)
     end).
Proof.
  unfold deregister_task. simpl.
  by destruct (deregister_task_definition ecs id).
Qed.

Lemma connects_store (stored : option task_definition) :
  connects (store_env stored) (store_client stored).
Proof. by repeat split. Qed.

(** ** present *)

Lemma present_resolves (module : AnsibleModule) :
  state (params module) = present →
  contains (family (params module)) = true →
  contains (containers (params module)) = true →
  resolves module (get (family (params module))).
Proof.
  intros Hst Hf Hc. unfold resolves, task_to_describe.
  by rewrite Hst, Hf, Hc.
Qed.

(** C4.  A [present] invocation (family and container list among the
    parameters) whose lookup answers [existing]:
    - when a definition is found and its status is ACTIVE, only the
      lookup is made and the result is changed = false with that
      definition;
    - otherwise (nothing found, or a status other than ACTIVE), under
      dry-run only the lookup is made and changed = true is reported;
      without dry-run one register call follows the lookup, with the
      caller's family, the caller's container list and the caller's
      volume list (the empty list when volumes are left out or null),
      and changed = true is reported with the definition the call
      returns. *)
Theorem present_decision (env : environment) (ecs : ecs_client)
    (module : AnsibleModule) (existing : option task_definition) :
  connects env ecs →
  state (params module) = present →
  contains (family (params module)) = true →
  contains (containers (params module)) = true →
  looked_up ecs (get (family (params module))) existing →
  let p := params module in
  let id := get (family p) in
  let vols := Some (default [] (get (volumes p))) in
  (∀ td, existing = Some td → td_status td = Some "ACTIVE" →
     main env module = ([Describe id], exit_json false (Some td)))
  ∧ ((existing = None
      ∨ ∃ td, existing = Some td ∧ td_status td ≠ Some "ACTIVE") →
     if check_mode module
     then main env module = ([Describe id], exit_json true None)
     else (main env module).1
          = [Describe id; Register (get (family p)) (get (containers p)) vols]
          ∧ ∀ td', register_task_definition ecs (get (family p))
                     (get (containers p)) vols = ret td' →
                   (main env module).2 = exit_json true (Some td')).
Proof.
  intros Hconn Hst Hf Hc Hex p id vols.
  rewrite (main_looked_up env ecs module id existing)
    by (by try apply present_resolves).
  unfold after_lookup, reconcile. rewrite Hst. fold p.
  assert (Some (default [] (if contains (volumes p)
                            then get (volumes p) else Some [])) = vols) as ->.
  { unfold vols, contains, get. by destruct (volumes p) as [[v|]|]. }
  split.
  - intros td -> Hact. simpl. unfold status_is. rewrite Hact.
    by rewrite bool_decide_eq_true_2.
  - intros Hother.
    assert (py_bool existing
            && from_option (λ td, status_is td "ACTIVE") false existing
            = false) as ->.
    { destruct Hother as [->|(td & -> & Hst')]; [done|].
      simpl. unfold status_is. destruct (td_status td) as [s|]; [|done].
      apply bool_decide_eq_false_2. congruence. }
    destruct (check_mode module); simpl; [done|].
    rewrite register_task_run. simpl.
    destruct (register_task_definition ecs _ _ _) as [td''|e]; simpl;
      (split; [done|]); by intros td' [= ->].
Qed.

Lemma present_decision_witness :
  (connects (store_env None) (store_client None)
   ∧ state (params (present_svc false)) = present
   ∧ contains (family (params (present_svc false))) = true
   ∧ contains (containers (params (present_svc false))) = true
   ∧ looked_up (store_client None) (Some "svc") None)
  ∧ (main (store_env None) (present_svc false)).1
    = [Describe (Some "svc"); Register (Some "svc") (Some [app_1]) (Some [])].
Proof.
  assert (connects (store_env None) (store_client None)) as Hc
    by (by repeat split).
  split; [by repeat split|].
  destruct (present_decision (store_env None) (store_client None)
              (present_svc false) None Hc eq_refl eq_refl eq_refl eq_refl)
    as [_ H].
  destruct H as [Hcalls _]; [by left|]. exact Hcalls.
Defined.

(** ** absent *)

(** C5.  An [absent] invocation whose lookup identifier resolves to [id]
    and whose lookup answers [existing]:
    - nothing found: only the lookup is made, changed = false;
    - found with status INACTIVE: only the lookup is made, changed =
      false;
    - found with any other status or with none: under dry-run only the
      lookup is made and changed = true is reported; without dry-run one
      deregister call with [id] follows the lookup and changed = true is
      reported once it returns. *)
Theorem absent_decision (env : environment) (ecs : ecs_client)
    (module : AnsibleModule) (id : option string)
    (existing : option task_definition) :
  connects env ecs →
  state (params module) = absent →
  resolves module id →
  looked_up ecs id existing →
  (existing = None →
     main env module = ([Describe id], exit_json false None))
  ∧ (∀ td, existing = Some td → td_status td = Some "INACTIVE" →
       main env module = ([Describe id], exit_json false (Some td)))
  ∧ (∀ td, existing = Some td → td_status td ≠ Some "INACTIVE" →
       if check_mode module
       then main env module = ([Describe id], exit_json true (Some td))
       else (main env module).1 = [Describe id; Deregister id]
            ∧ ∀ td', deregister_task_definition ecs id = ret td' →
                     (main env module).2 = exit_json true (Some td)).
Proof.
  intros Hconn Hst Hid Hex.
  rewrite (main_looked_up env ecs module id existing) by done.
  unfold after_lookup, reconcile. rewrite Hst.
  split; [by intros ->|]. split.
  - intros td -> Hin. unfold status_is. rewrite Hin.
    by rewrite bool_decide_eq_true_2.
  - intros td -> Hin.
    assert (status_is td "INACTIVE" = false) as ->.
    { unfold status_is. destruct (td_status td) as [s|]; [|done].
      apply bool_decide_eq_false_2. congruence. }
    destruct (check_mode module); simpl; [done|].
    rewrite deregister_task_run. simpl.
    destruct (deregister_task_definition ecs id) as [td''|e]; simpl;
      (split; [done|]); by intros td' [= ->].
Qed.

Lemma absent_decision_witness :
  (connects (store_env (Some (svc "ACTIVE" [app_1] [])))
     (store_client (Some (svc "ACTIVE" [app_1] [])))
   ∧ state (params (absent_svc false)) = absent
   ∧ resolves (absent_svc false) (Some "arn:svc:3")
   ∧ looked_up (store_client (Some (svc "ACTIVE" [app_1] [])))
       (Some "arn:svc:3") (Some (svc "ACTIVE" [app_1] [])))
  ∧ (main (store_env (Some (svc "ACTIVE" [app_1] []))) (absent_svc false)).1
    = [Describe (Some "arn:svc:3"); Deregister (Some "arn:svc:3")].
Proof.
  assert (connects (store_env (Some (svc "ACTIVE" [app_1] [])))
            (store_client (Some (svc "ACTIVE" [app_1] [])))) as Hc
    by (by repeat split).
  split; [by repeat split|].
  destruct (absent_decision _ _ (absent_svc false) (Some "arn:svc:3")
              (Some (svc "ACTIVE" [app_1] [])) Hc eq_refl eq_refl eq_refl)
    as (_ & _ & H).
  destruct (H _ eq_refl) as [Hcalls _]; [discriminate|]. exact Hcalls.
Defined.

(** ** update *)

(** What [update] merges for one sub-resource, against the wording of
    the specification.  The two differ on a supplied empty list, which
    the code does not merge, but the argument passed on is the same. *)
Lemma updated_list_merged (existing : list record)
    (param : option (option (list record))) (merged : list record) :
  merged_result existing (get param) merged →
  ∃ updated,
    updated_list existing param = io_ret updated
    ∧ py_or (Some updated) (Some existing)
      = Some (non_empty_or merged existing).
Proof.
  unfold merged_result, updated_list.
  destruct (get param) as [given|].
  - destruct given as [|g given]; simpl.
    + rewrite merge_lists_nil. intros [= <-]. exists []. split; [done|].
      unfold py_or. simpl. by destruct existing.
    + intros ->. exists merged. split; [done|].
      unfold py_or. simpl. by destruct merged.
  - intros ->. by exists [].
Qed.

(** Either the merge raises and the run stops there, or it yields a
    list that answers to the wording of the specification. *)
Lemma updated_list_cases (existing : list record)
    (param : option (option (list record))) :
  (∃ e, updated_list existing param = halt (uncaught e))
  ∨ ∃ updated merged,
      updated_list existing param = io_ret updated
      ∧ merged_result existing (get param) merged
      ∧ py_or (Some updated) (Some existing)
        = Some (non_empty_or merged existing).
Proof.
  destruct (get param) as [given|] eqn:Hget.
  - destruct (merge_lists existing given "name") as [merged|e] eqn:Hm.
    + right.
      destruct (updated_list_merged existing param merged)
        as (updated & Hu & Hor).
      { unfold merged_result. by rewrite Hget. }
      by exists updated, merged.
    + destruct given as [|g given].
      { by rewrite merge_lists_nil in Hm. }
      left. exists e. unfold updated_list. rewrite Hget. simpl. by rewrite Hm.
  - right. exists [], []. unfold updated_list. by rewrite Hget.
Qed.

Lemma py_or_family (supplied : option string) (existing : string) :
  py_or supplied (Some existing) = Some (family_or supplied existing).
Proof.
  unfold py_or, family_or. destruct supplied as [f|]; [|done].
  simpl. by destruct f.
Qed.

(** The remote calls of an [update] that finds a definition. *)
Lemma update_calls (env : environment) (ecs : ecs_client)
    (module : AnsibleModule) (id : option string) (td : task_definition) :
  connects env ecs →
  state (params module) = update →
  resolves module id →
  looked_up ecs id (Some td) →
  let p := params module in
  let arguments mc mv :=
    Register (Some (family_or (get (family p)) (td_family td)))
      (Some (non_empty_or mc (td_containerDefinitions td)))
      (Some (non_empty_or mv (td_volumes td))) in
  (∀ c, In c (main env module).1 → is_register c = true →
     ∃ mc mv,
       merged_result (td_containerDefinitions td) (get (containers p)) mc
       ∧ merged_result (td_volumes td) (get (volumes p)) mv
       ∧ c = arguments mc mv)
  ∧ (check_mode module = false →
     ∀ mc mv,
       merged_result (td_containerDefinitions td) (get (containers p)) mc →
       merged_result (td_volumes td) (get (volumes p)) mv →
       (main env module).1 = [Describe id; arguments mc mv]).
Proof.
  intros Hconn Hst Hid Hex p arguments.
  rewrite (main_looked_up env ecs module id (Some td)) by done.
  unfold after_lookup, reconcile. rewrite Hst. fold p. simpl. split.
  - intros c [<-|Hin] Hreg; [done|].
    destruct (check_mode module); simpl in Hin; [done|].
    destruct (updated_list_cases (td_containerDefinitions td) (containers p))
      as [[e Hc]|(uc & mc & Hc & Hmc & Hoc)]; rewrite Hc in Hin;
      simpl in Hin; [done|].
    destruct (updated_list_cases (td_volumes td) (volumes p))
      as [[e Hv]|(uv & mv & Hv & Hmv & Hov)]; rewrite Hv in Hin;
      simpl in Hin; [done|].
    rewrite register_task_run, py_or_family, Hoc, Hov in Hin.
    exists mc, mv. split; [done|]. split; [done|].
    destruct (register_task_definition ecs _ _ _); simpl in Hin;
      by destruct Hin as [<-|[]].
  - intros -> mc mv Hmc Hmv. simpl.
    destruct (updated_list_merged _ (containers p) _ Hmc) as (uc & -> & Hoc).
    destruct (updated_list_merged _ (volumes p) _ Hmv) as (uv & -> & Hov).
    simpl. rewrite register_task_run, py_or_family, Hoc, Hov.
    by destruct (register_task_definition ecs _ _ _).
Qed.


(** C2.  An [update] invocation whose lookup finds the definition [td].
    Every register call it makes receives: as family the caller's family
    if given (and not empty), else the family of [td]; as containers the
    merged container list if non-empty, else the containers of [td]; as
    volumes the merged volume list if non-empty, else the volumes of
    [td]; where the merged list is the caller's list merged by name into
    the existing one, and the empty sequence when the caller supplies
    none.  Without dry-run, and when both merges return, that register
    call is made, right after the lookup. *)
Theorem update_register_arguments (env : environment) (ecs : ecs_client)
    (module : AnsibleModule) (id : option string) (td : task_definition) :
  connects env ecs →
  state (params module) = update →
  resolves module id →
  looked_up ecs id (Some td) →
  let p := params module in
  let arguments mc mv :=
    Register (Some (family_or (get (family p)) (td_family td)))
      (Some (non_empty_or mc (td_containerDefinitions td)))
      (Some (non_empty_or mv (td_volumes td))) in
  (∀ c, In c (main env module).1 → is_register c = true →
     ∃ mc mv,
       merged_result (td_containerDefinitions td) (get (containers p)) mc
       ∧ merged_result (td_volumes td) (get (volumes p)) mv
       ∧ c = arguments mc mv)
  ∧ (check_mode module = false →
     ∀ mc mv,
       merged_result (td_containerDefinitions td) (get (containers p)) mc →
       merged_result (td_volumes td) (get (volumes p)) mv →
       (main env module).1 = [Describe id; arguments mc mv]).
Proof. apply update_calls. Qed.

Lemma update_register_arguments_witness :
  (connects (store_env (Some (svc "ACTIVE" [app_1; sidecar] [my_vol])))
     (store_client (Some (svc "ACTIVE" [app_1; sidecar] [my_vol])))
   ∧ state (params (update_app false)) = update
   ∧ resolves (update_app false) (Some "svc")
   ∧ looked_up (store_client (Some (svc "ACTIVE" [app_1; sidecar] [my_vol])))
       (Some "svc") (Some (svc "ACTIVE" [app_1; sidecar] [my_vol])))
  ∧ (main (store_env (Some (svc "ACTIVE" [app_1; sidecar] [my_vol])))
       (update_app false)).1
    = [Describe (Some "svc");
       Register (Some "svc") (Some [app_2; sidecar]) (Some [my_vol])].
Proof.
  assert (connects (store_env (Some (svc "ACTIVE" [app_1; sidecar] [my_vol])))
            (store_client (Some (svc "ACTIVE" [app_1; sidecar] [my_vol]))))
    as Hc by (by repeat split).
  split; [by repeat split|].
  destruct (update_register_arguments _ _ (update_app false) (Some "svc")
              (svc "ACTIVE" [app_1; sidecar] [my_vol])
              Hc eq_refl eq_refl eq_refl) as [_ H].
  exact (H eq_refl [app_2; sidecar] [] eq_refl eq_refl).
Defined.

(** The run of scenario C's sibling: an update that gives volumes only
    registers the existing containers, all of them. *)
Lemma update_volumes_only_run :
  main (store_env (Some (svc "ACTIVE" [app_1; sidecar] []))) update_volumes_only
  = ([Describe (Some "svc");
      Register (Some "svc") (Some [app_1; sidecar]) (Some [my_vol])],
     exit_json true
       (Some (registered (Some "svc") (Some [app_1; sidecar]) (Some [my_vol])))).
Proof. vm_compute. reflexivity. Qed.

(** C3, as the code has it.  An [update] invocation that supplies no
    container list and whose lookup finds the definition [td]: every
    register call it makes receives the container list of [td] itself,
    so that every existing container is carried forward.  Without
    dry-run, when a volume list is supplied and its merge returns, that
    register call is made, right after the lookup. *)
Theorem update_without_containers_keeps_existing (env : environment)
    (ecs : ecs_client) (module : AnsibleModule) (id : option string)
    (td : task_definition) :
  connects env ecs →
  state (params module) = update →
  resolves module id →
  looked_up ecs id (Some td) →
  get (containers (params module)) = None →
  (∀ f c v, In (Register f c v) (main env module).1 →
            c = Some (td_containerDefinitions td))
  ∧ (check_mode module = false →
     ∀ vs mv,
       get (volumes (params module)) = Some vs →
       merge_lists (td_volumes td) vs "name" = ret mv →
       (main env module).1
       = [Describe id;
          Register
            (Some (family_or (get (family (params module))) (td_family td)))
            (Some (td_containerDefinitions td))
            (Some (non_empty_or mv (td_volumes td)))]).
Proof.
  intros Hconn Hst Hid Hex Hnone.
  destruct (update_calls env ecs module id td Hconn Hst Hid Hex)
    as [Hany Hrun].
  split.
  - intros f c v Hin.
    destruct (Hany _ Hin eq_refl) as (mc & mv & Hmc & _ & Heq).
    rewrite Hnone in Hmc. simpl in Hmc. subst mc.
    by injection Heq as _ -> _.
  - intros Hdry vs mv Hvs Hmv.
    rewrite (Hrun Hdry [] mv); [done|by rewrite Hnone|].
    by rewrite Hvs.
Qed.

Lemma update_without_containers_keeps_existing_witness :
  (connects (store_env (Some (svc "ACTIVE" [app_1; sidecar] [])))
     (store_client (Some (svc "ACTIVE" [app_1; sidecar] [])))
   ∧ state (params update_volumes_only) = update
   ∧ resolves update_volumes_only (Some "svc")
   ∧ looked_up (store_client (Some (svc "ACTIVE" [app_1; sidecar] [])))
       (Some "svc") (Some (svc "ACTIVE" [app_1; sidecar] []))
   ∧ get (containers (params update_volumes_only)) = None)
  ∧ (main (store_env (Some (svc "ACTIVE" [app_1; sidecar] [])))
       update_volumes_only).1
    = [Describe (Some "svc");
       Register (Some "svc") (Some [app_1; sidecar]) (Some [my_vol])].
Proof.
  assert (connects (store_env (Some (svc "ACTIVE" [app_1; sidecar] [])))
            (store_client (Some (svc "ACTIVE" [app_1; sidecar] []))))
    as Hc by (by repeat split).
  split; [by repeat split|].
  destruct (update_without_containers_keeps_existing _ _ update_volumes_only
              (Some "svc") (svc "ACTIVE" [app_1; sidecar] [])
              Hc eq_refl eq_refl eq_refl eq_refl) as [_ H].
  exact (H eq_refl [my_vol] [my_vol] eq_refl eq_refl).
Defined.

(** Scenario E under dry-run: the lookup finds nothing, and yet the run
    ends normally, reporting changed = true. *)
Lemma update_ghost_dry_run :
  main (store_env None) (update_ghost true)
  = ([Describe (Some "ghost")], exit_json true None).
Proof. vm_compute. reflexivity. Qed.

(** C6, as the code has it.  An [update] invocation whose lookup finds
    nothing: without dry-run it fails, right after the lookup, with the
    message that there is no existing task definition to update; under
    dry-run the test is not reached and changed = true is reported; in
    both cases no register call is made. *)
Theorem update_nothing_to_update (env : environment) (ecs : ecs_client)
    (module : AnsibleModule) (id : option string) :
  connects env ecs →
  state (params module) = update →
  resolves module id →
  looked_up ecs id None →
  (check_mode module = false →
     main env module
     = ([Describe id],
        fail_json "No existing task definition to update could be found"))
  ∧ (check_mode module = true →
     main env module = ([Describe id], exit_json true None))
  ∧ List.filter is_register (main env module).1 = [].
Proof.
  intros Hconn Hst Hid Hex.
  rewrite (main_looked_up env ecs module id None) by done.
  unfold after_lookup, reconcile. rewrite Hst.
  by destruct (check_mode module).
Qed.

Lemma update_nothing_to_update_witness :
  (connects (store_env None) (store_client None)
   ∧ state (params (update_ghost false)) = update
   ∧ resolves (update_ghost false) (Some "ghost")
   ∧ looked_up (store_client None) (Some "ghost") None)
  ∧ main (store_env None) (update_ghost false)
    = ([Describe (Some "ghost")],
       fail_json "No existing task definition to update could be found").
Proof.
  assert (connects (store_env None) (store_client None)) as Hc
    by (by repeat split).
  split; [by repeat split|].
  destruct (update_nothing_to_update _ _ (update_ghost false) (Some "ghost")
              Hc eq_refl eq_refl eq_refl) as [H _].
  exact (H eq_refl).
Defined.

(** ** The required parameters of present *)

(** When the family or the containers key is missing from the
    parameters, [present] fails before any remote call. *)
Lemma present_missing_key_fails (env : environment) (module : AnsibleModule) :
  HAS_BOTO env = true →
  HAS_BOTO3 env = true →
  state (params module) = present →
  contains (family (params module)) = false
  ∨ contains (containers (params module)) = false →
  main env module
  = ([], fail_json
           (if contains (family (params module))
            then "To use task definitions, a list of containers must be specified"
            else "To use task definitions, a family must be specified")).
Proof.
  intros Hb Hb3 Hst Hmiss. unfold main, task_to_describe.
  rewrite Hb, Hb3, Hst. simpl.
  destruct (contains (family (params module))); simpl; [|done].
  destruct Hmiss as [Hm | ->]; done.
Qed.

(** A key bound to [None] passes both tests: the lookup is made, with
    whatever the family is bound to. *)
Lemma present_bound_keys_look_up (env : environment) (ecs : ecs_client)
    (module : AnsibleModule) :
  connects env ecs →
  state (params module) = present →
  contains (family (params module)) = true →
  contains (containers (params module)) = true →
  ∃ calls, (main env module).1
           = Describe (get (family (params module))) :: calls.
Proof.
  intros Hconn Hst Hf Hc.
  rewrite (main_connected env ecs module (get (family (params module))))
    by (by try apply present_resolves).
  unfold describe_task. simpl.
  destruct (describe_task_definition ecs _) as [td|e]; [|destruct e];
    simpl; try (by eexists);
    by destruct (reconcile _ _ _ _) as [t [o|o]]; eexists.
Qed.

(** C7, at the input where the code departs from it.  With neither the
    family nor the container list given (both parameters bound to
    [None]), [present] does not fail: it looks up [None] and, finding
    nothing, registers a definition with no family and no containers. *)
Theorem present_nothing_given_run :
  main (store_env None) present_nothing_given
  = ([Describe None; Register None None (Some [])],
     exit_json true (Some (registered None None (Some [])))).
Proof. vm_compute. reflexivity. Qed.

(** ** Errors of the lookup *)

(** An exception of the describe call that is not a client error is not
    caught. *)
Lemma describe_other_error_surfaces (env : environment) (ecs : ecs_client)
    (module : AnsibleModule) (id : option string) (name : string) :
  connects env ecs →
  resolves module id →
  describe_task_definition ecs id = raise (BotoCoreError name) →
  main env module = ([Describe id], uncaught (BotoCoreError name)).
Proof.
  intros Hconn Hid Hraise.
  rewrite (main_connected env ecs module id) by done.
  unfold describe_task. simpl. by rewrite Hraise.
Qed.

(** C10.  Whatever client error the describe call raises (unknown
    definition, missing permission, validation, throttling: the code is
    not looked at), [describe_task] returns [None] and the invocation
    goes on as it does when no definition exists; the error is not
    surfaced. *)
Theorem describe_client_error_is_absent (env : environment)
    (ecs : ecs_client) (module : AnsibleModule) (id : option string)
    (code : string) :
  connects env ecs →
  resolves module id →
  describe_task_definition ecs id = raise (ClientError code) →
  describe_task ecs id = ([Describe id], inr None)
  ∧ main env module
    = (Describe id :: (after_lookup ecs module id None).1,
       (after_lookup ecs module id None).2).
Proof.
  intros Hconn Hid Hraise.
  pose proof (describe_task_ClientError ecs id code Hraise) as Hnone.
  split; [done|]. by apply main_looked_up.
Qed.

Lemma describe_client_error_is_absent_witness :
  (connects denied_env denied_client
   ∧ resolves (present_svc false) (Some "svc")
   ∧ describe_task_definition denied_client (Some "svc")
     = raise (ClientError "AccessDeniedException"))
  ∧ main denied_env (present_svc false)
    = ([Describe (Some "svc"); Register (Some "svc") (Some [app_1]) (Some [])],
       exit_json true (Some (registered (Some "svc") (Some [app_1]) (Some [])))).
Proof.
  assert (connects denied_env denied_client) as Hc by (by repeat split).
  split; [by repeat split|].
  destruct (describe_client_error_is_absent denied_env denied_client
              (present_svc false) (Some "svc") "AccessDeniedException"
              Hc eq_refl eq_refl) as [_ H].
  rewrite H. reflexivity.
Defined.

(** * Further properties of the list merger *)

Section merge_errors.

Variable key : string.

(** The only exception the merge can raise is the [KeyError] of a record
    without the key field. *)
Lemma getitem_raises (r : record) (e : exception) :
  getitem r key = raise e → e = KeyError key.
Proof. unfold getitem. destruct (r !! key); congruence. Qed.

Lemma getitem_returns (r : record) (v : value) :
  getitem r key = ret v → has_key key r = true.
Proof. unfold getitem, has_key. by destruct (r !! key). Qed.

Lemma getitem_no_key (r : record) :
  has_key key r = false → getitem r key = raise (KeyError key).
Proof. unfold getitem, has_key. by destruct (r !! key). Qed.

Lemma next_update_raises (updates : list record) (item : record)
    (e : exception) :
  next_update updates item key = raise e → e = KeyError key.
Proof.
  induction updates as [|u updates IH]; simpl; [done|].
  destruct (getitem u key) as [uk|e1] eqn:Hu; simpl.
  - destruct (getitem item key) as [ik|e2] eqn:Hi; simpl.
    + destruct (py_eq uk ik); [done|apply IH].
    + intros [= <-]. by eapply getitem_raises.
  - intros [= <-]. by eapply getitem_raises.
Qed.

Lemma next_existing_raises (items : list record) (update : record)
    (e : exception) :
  next_existing items update key = raise e → e = KeyError key.
Proof.
  induction items as [|i items IH]; simpl; [done|].
  destruct (getitem i key) as [ik|e1] eqn:Hi; simpl.
  - destruct (getitem update key) as [uk|e2] eqn:Hu; simpl.
    + destruct (py_eq ik uk); [done|apply IH].
    + intros [= <-]. by eapply getitem_raises.
  - intros [= <-]. by eapply getitem_raises.
Qed.

Lemma update_existing_raises (items updates acc : list record)
    (e : exception) :
  update_existing items updates key acc = raise e → e = KeyError key.
Proof.
  revert acc. induction items as [|item items IH]; intros acc; simpl; [done|].
  destruct (next_update updates item key) as [[u|]|e1] eqn:Hn; simpl.
  - destruct (py_bool u); apply IH.
  - apply IH.
  - intros [= <-]. by eapply next_update_raises.
Qed.

Lemma create_new_raises (updates items acc : list record) (e : exception) :
  create_new updates items key acc = raise e → e = KeyError key.
Proof.
  revert acc. induction updates as [|u updates IH]; intros acc; simpl; [done|].
  destruct (next_existing items u key) as [[i|]|e1] eqn:Hn; simpl.
  - destruct (py_bool i); apply IH.
  - apply IH.
  - intros [= <-]. by eapply next_existing_raises.
Qed.

(** A comparison that returns has read the key of both records. *)
Lemma next_update_returns (u : record) (updates : list record)
    (item : record) (o : option record) :
  next_update (u :: updates) item key = ret o → has_key key item = true.
Proof.
  simpl. destruct (getitem u key) as [uk|] eqn:Hu; simpl; [|done].
  destruct (getitem item key) as [ik|] eqn:Hi; simpl; [|done].
  intros _. by eapply getitem_returns.
Qed.

Lemma next_existing_returns (i : record) (items : list record)
    (update : record) (o : option record) :
  next_existing (i :: items) update key = ret o → has_key key update = true.
Proof.
  simpl. destruct (getitem i key) as [ik|] eqn:Hi; simpl; [|done].
  destruct (getitem update key) as [uk|] eqn:Hu; simpl; [|done].
  intros _. by eapply getitem_returns.
Qed.

(** An item without the key stops the first loop whenever there is an
    update to compare it with, whatever the updates carry. *)
Lemma update_existing_item_without_key (items : list record) (u : record)
    (updates acc : list record) :
  forallb (has_key key) items = false →
  update_existing items (u :: updates) key acc = raise (KeyError key).
Proof.
  revert acc. induction items as [|item items IH]; intros acc His; [done|].
  cbn [update_existing].
  destruct (next_update (u :: updates) item key) as [o|e] eqn:Hn.
  - apply next_update_returns in Hn as Hitem.
    simpl in His. rewrite Hitem in His. simpl in His.
    cbn [mbind py_bind].
    destruct o as [w|]; [destruct (py_bool w)|]; by apply IH.
  - apply next_update_raises in Hn as ->. done.
Qed.

(** An update without the key stops the second loop whenever there is an
    item to compare it with. *)
Lemma create_new_update_without_key (updates : list record) (i : record)
    (items acc : list record) :
  forallb (has_key key) updates = false →
  create_new updates (i :: items) key acc = raise (KeyError key).
Proof.
  revert acc. induction updates as [|u updates IH]; intros acc Hus; [done|].
  cbn [create_new].
  destruct (next_existing (i :: items) u key) as [o|e] eqn:Hn.
  - apply next_existing_returns in Hn as Hu.
    simpl in Hus. rewrite Hu in Hus. simpl in Hus.
    cbn [mbind py_bind].
    destruct o as [w|]; [destruct (py_bool w)|]; by apply IH.
  - apply next_existing_raises in Hn as ->. done.
Qed.

(** With no items, the second loop appends every update unread. *)
Lemma create_new_no_items (updates acc : list record) :
  create_new updates [] key acc = ret (acc ++ updates).
Proof.
  revert acc. induction updates as [|u updates IH]; intros acc; simpl.
  - by rewrite app_nil_r.
  - rewrite IH. by rewrite <-app_assoc.
Qed.

Lemma merge_contract_no_items (updates : list record) :
  merge_contract key [] updates = updates.
Proof.
  unfold merge_contract, brand_new. simpl.
  induction updates as [|u updates IH]; simpl; [done|]. by rewrite IH.
Qed.

Lemma merge_contract_no_updates (items : list record) :
  merge_contract key items [] = items.
Proof.
  unfold merge_contract. simpl. rewrite app_nil_r.
  apply fmap_fixed. done.
Qed.

End merge_errors.

(** Returning or raising, by the shape of the two lists. *)
Lemma merge_lists_cases (key : string)
    (items updates : list record) :
  merge_lists items updates key
  = if merge_returns key items updates
    then ret (merge_contract key items updates)
    else raise (KeyError key).
Proof.
  destruct items as [|i items].
  { simpl. unfold merge_lists. simpl.
    by rewrite create_new_no_items, merge_contract_no_items. }
  destruct updates as [|u updates].
  { simpl. by rewrite merge_lists_nil, merge_contract_no_updates. }
  unfold merge_returns.
  destruct (forallb (has_key key) (i :: items)) eqn:His.
  - destruct (forallb (has_key key) (u :: updates)) eqn:Hus; simpl.
    + by apply merge_lists_ret.
    + unfold merge_lists.
      destruct (update_existing _ _ _ _) as [r|e] eqn:Hloop;
        cbn [mbind py_bind].
      * by apply create_new_update_without_key.
      * by apply update_existing_raises in Hloop as ->.
  - simpl. unfold merge_lists.
    by rewrite update_existing_item_without_key.
Qed.


(** X1.  The whole behaviour of [merge_lists]: it returns the merge
    contract when one of the two lists is empty or every record carries
    the key field, and raises [KeyError] of the key in every other case,
    that is, as soon as both lists are non-empty and a record of either
    lacks the key. *)
Theorem merge_lists_returns_or_KeyError (key : string)
    (items updates : list record) :
  merge_lists items updates key
  = if merge_returns key items updates
    then ret (merge_contract key items updates)
    else raise (KeyError key).
Proof. apply merge_lists_cases. Qed.

(** X2.  Merging into an empty list returns the updates as they are, in
    their order; their key fields are not read, so records without the
    key pass. *)
Theorem merge_lists_into_empty (updates : list record) (key : string) :
  merge_lists [] updates key = ret updates.
Proof. unfold merge_lists. simpl. apply create_new_no_items. Qed.

Section merge_invariants.

Variable key : string.

Lemma brand_new_length (items updates : list record) :
  length (brand_new key items updates) ≤ length updates.
Proof.
  unfold brand_new. induction updates as [|u updates IH]; simpl; [done|].
  destruct (negb _); simpl; lia.
Qed.

Lemma merge_lists_returned (items updates r : list record) :
  merge_lists items updates key = ret r →
  r = merge_contract key items updates.
Proof.
  rewrite merge_lists_cases.
  destruct (merge_returns key items updates); congruence.
Qed.

(** Distinct keys in a concatenation. *)
Lemma distinct_keys_app (l1 l2 : list record) :
  distinct_keys key (l1 ++ l2)
  = distinct_keys key l1 && distinct_keys key l2
    && forallb (λ a, forallb (λ b, negb (same_key key a b)) l2) l1.
Proof.
  induction l1 as [|a l1 IH]; simpl.
  - by rewrite andb_true_r.
  - rewrite IH, forallb_app.
    generalize (has_key key a) (distinct_keys key l1) (distinct_keys key l2)
      (forallb (λ u', negb (same_key key a u')) l1)
      (forallb (λ u', negb (same_key key a u')) l2)
      (forallb (λ a0, forallb (λ b, negb (same_key key a0 b)) l2) l1).
    by intros [] [] [] [] [] [].
Qed.

Lemma distinct_keys_filter (f : record → bool) (l : list record) :
  distinct_keys key l = true → distinct_keys key (List.filter f l) = true.
Proof.
  induction l as [|u l IH]; simpl; [done|].
  intros [[Hu Hfresh]%andb_true_iff Hl]%andb_true_iff.
  destruct (f u); simpl; [|by apply IH].
  rewrite Hu, IH by done. rewrite andb_true_r. simpl.
  apply forallb_forall. intros u' [Hin _]%filter_In.
  rewrite forallb_forall in Hfresh. by apply Hfresh.
Qed.

Lemma distinct_keys_emitted (updates items : list record) :
  distinct_keys key items = true →
  distinct_keys key (emitted key updates <$> items) = true.
Proof.
  induction items as [|x items IH]; [done|].
  rewrite fmap_cons. simpl.
  intros [[Hx Hfresh]%andb_true_iff Hl]%andb_true_iff.
  rewrite emitted_has_key, IH by done. rewrite andb_true_r. simpl.
  apply forallb_forall.
  intros r (y & -> & Hy)%list_elem_of_In%list_elem_of_fmap.
  rewrite emitted_same_key, same_key_sym, emitted_same_key, same_key_sym.
  rewrite forallb_forall in Hfresh. by apply Hfresh, list_elem_of_In.
Qed.

Lemma merge_contract_distinct (items updates : list record) :
  distinct_keys key items = true →
  distinct_keys key updates = true →
  distinct_keys key (merge_contract key items updates) = true.
Proof.
  intros His Hus. unfold merge_contract.
  rewrite distinct_keys_app, distinct_keys_emitted by done.
  unfold brand_new at 1. rewrite distinct_keys_filter by done. simpl.
  apply forallb_forall.
  intros r (x & -> & Hx)%list_elem_of_In%list_elem_of_fmap.
  apply forallb_forall. intros u [Hu Hnew]%filter_In.
  rewrite emitted_same_key. apply negb_true_iff.
  apply negb_true_iff in Hnew. apply not_true_is_false. intros Hsame.
  apply not_true_iff_false in Hnew. apply Hnew.
  apply existsb_exists. exists x. split; [by apply list_elem_of_In|done].
Qed.

Lemma emitted_keeps_fields (updates : list record) (item : record)
    (f : string) :
  is_Some (item !! f) → is_Some (emitted key updates item !! f).
Proof.
  intros Hf. unfold emitted. destruct (find _ updates) as [u|]; [|done].
  rewrite lookup_overlay. by destruct (u !! f).
Qed.

Lemma emitted_unmatched (updates : list record) (item : record) :
  existsb (λ u, same_key key u item) updates = false →
  emitted key updates item = item.
Proof.
  intros Hnone. unfold emitted.
  destruct (find _ updates) as [u|] eqn:Hfind; [|done].
  apply find_some in Hfind as [Hin Hsame].
  assert (existsb (λ u, same_key key u item) updates = true) as Hex
    by (apply existsb_exists; eauto).
  congruence.
Qed.

End merge_invariants.

(** X3.  Whenever [merge_lists] returns, the result has one record per
    item plus one per update whose key matches no item: it is never
    shorter than [items] and never longer than the two lists together. *)
Theorem merge_lists_length (key : string) (items updates r : list record) :
  merge_lists items updates key = ret r →
  length r = length items + length (brand_new key items updates)
  ∧ length items ≤ length r ≤ length items + length updates.
Proof.
  intros ->%merge_lists_returned. unfold merge_contract.
  rewrite length_app, length_fmap.
  pose proof (brand_new_length key items updates). lia.
Qed.

Lemma merge_lists_length_witness :
  merge_lists [app_1; sidecar] [app_2; my_vol] "name"
  = ret [app_2; sidecar; my_vol]
  ∧ length [app_2; sidecar; my_vol]
    = length [app_1; sidecar]
      + length (brand_new "name" [app_1; sidecar] [app_2; my_vol]).
Proof.
  split; [reflexivity|].
  apply (merge_lists_length "name" [app_1; sidecar] [app_2; my_vol]
           [app_2; sidecar; my_vol]).
  reflexivity.
Defined.

(** X4.  Unique names stay unique: when no two records of [items] share
    a key and no two records of [updates] do (every record carrying the
    key), the merge returns a list in which no two records share a key. *)
Theorem merge_lists_keeps_keys_distinct (key : string)
    (items updates : list record) :
  distinct_keys key items = true →
  distinct_keys key updates = true →
  ∃ r, merge_lists items updates key = ret r ∧ distinct_keys key r = true.
Proof.
  intros His Hus. exists (merge_contract key items updates). split.
  - apply merge_lists_ret; by apply distinct_keys_has_key.
  - by apply merge_contract_distinct.
Qed.

Lemma merge_lists_keeps_keys_distinct_witness :
  (distinct_keys "name" [app_1; sidecar] = true
   ∧ distinct_keys "name" [app_2; my_vol] = true)
  ∧ ∃ r, merge_lists [app_1; sidecar] [app_2; my_vol] "name" = ret r
         ∧ distinct_keys "name" r = true.
Proof.
  split; [split; reflexivity|].
  apply (merge_lists_keeps_keys_distinct "name" [app_1; sidecar]
           [app_2; my_vol]); reflexivity.
Defined.

(** X5.  The merge keeps every item in its place and under its key: when
    every record carries the key, the record at position [i] of the
    result shares its key with the item at position [i] and has every
    field that item has. *)
Theorem merge_lists_keeps_items (key : string) (items updates : list record) :
  forallb (has_key key) items = true →
  forallb (has_key key) updates = true →
  ∃ r, merge_lists items updates key = ret r
       ∧ ∀ (i : nat) (item : record), items !! i = Some item →
           ∃ merged, r !! i = Some merged
                     ∧ same_key key item merged = true
                     ∧ ∀ f, is_Some (item !! f) → is_Some (merged !! f).
Proof.
  intros His Hus. exists (merge_contract key items updates).
  split; [by apply merge_lists_ret|].
  intros i item Hi. exists (emitted key updates item).
  assert (has_key key item = true) as Hitem.
  { rewrite forallb_forall in His. apply His.
    by eapply list_elem_of_In, list_elem_of_lookup_2. }
  split; [|split].
  - unfold merge_contract. rewrite lookup_app_l.
    + by rewrite list_lookup_fmap, Hi.
    + rewrite length_fmap. by eapply lookup_lt_Some.
  - rewrite same_key_sym, emitted_same_key. by apply same_key_refl.
  - intros f. apply emitted_keeps_fields.
Qed.

Lemma merge_lists_keeps_items_witness :
  (forallb (has_key "name") [app_1; sidecar] = true
   ∧ forallb (has_key "name") [app_2; my_vol] = true)
  ∧ ∃ r, merge_lists [app_1; sidecar] [app_2; my_vol] "name" = ret r
         ∧ ∀ (i : nat) (item : record), [app_1; sidecar] !! i = Some item →
             ∃ merged, r !! i = Some merged
                       ∧ same_key "name" item merged = true
                       ∧ ∀ f, is_Some (item !! f) → is_Some (merged !! f).
Proof.
  split; [split; reflexivity|].
  apply (merge_lists_keeps_items "name" [app_1; sidecar] [app_2; my_vol]);
    reflexivity.
Defined.

(** X6.  When no update shares a key with an item (every record carrying
    the key), the merge is a plain concatenation: the items as they are,
    then the updates as they are. *)
Theorem merge_lists_disjoint (key : string) (items updates : list record) :
  forallb (has_key key) items = true →
  forallb (has_key key) updates = true →
  forallb (λ u, negb (existsb (λ i, same_key key i u) items)) updates = true →
  merge_lists items updates key = ret (items ++ updates).
Proof.
  intros His Hus Hdisj. rewrite merge_lists_ret by done.
  unfold merge_contract. f_equal. f_equal.
  - apply fmap_fixed. intros item Hitem. apply emitted_unmatched.
    apply not_true_is_false. intros (u & Hu & Hsame)%existsb_exists.
    rewrite forallb_forall in Hdisj. specialize (Hdisj u Hu).
    apply negb_true_iff, not_true_iff_false in Hdisj. apply Hdisj.
    apply existsb_exists. exists item. by rewrite same_key_sym.
  - unfold brand_new. clear Hus.
    induction updates as [|u updates IH]; simpl in *; [done|].
    apply andb_true_iff in Hdisj as [-> Hdisj]. by rewrite IH.
Qed.

Lemma merge_lists_disjoint_witness :
  (forallb (has_key "name") [app_1; sidecar] = true
   ∧ forallb (has_key "name") [my_vol] = true
   ∧ forallb (λ u, negb (existsb (λ i, same_key "name" i u) [app_1; sidecar]))
       [my_vol] = true)
  ∧ merge_lists [app_1; sidecar] [my_vol] "name"
    = ret [app_1; sidecar; my_vol].
Proof.
  split; [by repeat split|].
  apply (merge_lists_disjoint "name" [app_1; sidecar] [my_vol]); reflexivity.
Defined.

(** A list merged into itself. *)
Lemma merge_lists_same_list (key : string) (items : list record) :
  distinct_keys key items = true →
  merge_lists items items key = ret items.
Proof.
  intros Hdist. pose proof (distinct_keys_has_key _ _ Hdist) as Hkeys.
  rewrite merge_lists_ret by done. f_equal.
  unfold merge_contract.
  assert (brand_new key items items = []) as ->.
  { apply filter_all_false. intros u Hu. apply negb_false_iff.
    apply existsb_exists. exists u. split; [done|].
    apply same_key_refl. rewrite forallb_forall in Hkeys. by apply Hkeys. }
  rewrite app_nil_r. apply fmap_fixed. intros item Hitem.
  unfold emitted. rewrite find_self by done. apply overlay_self.
Qed.

(** X7.  Merging a list with distinct keys into itself returns it
    unchanged. *)
Theorem merge_lists_self (key : string) (items : list record) :
  distinct_keys key items = true →
  merge_lists items items key = ret items.
Proof. apply merge_lists_same_list. Qed.

Lemma merge_lists_self_witness :
  distinct_keys "name" [app_1; sidecar] = true
  ∧ merge_lists [app_1; sidecar] [app_1; sidecar] "name"
    = ret [app_1; sidecar].
Proof.
  split; [reflexivity|].
  apply (merge_lists_self "name" [app_1; sidecar]). reflexivity.
Defined.

(** * Further properties of main *)

(** ** The shape of a run *)

(** The merge inside [update] makes no remote call; it yields a list or
    stops the run on the [KeyError] of a record without a name. *)
Lemma updated_list_quiet (existing : list record)
    (param : option (option (list record))) :
  (∃ l, updated_list existing param = io_ret l)
  ∨ updated_list existing param = halt (uncaught (KeyError "name")).
Proof.
  unfold updated_list. destruct (get param) as [given|]; [|by left; eexists].
  destruct (py_bool given); [|by left; eexists].
  rewrite merge_lists_cases.
  destruct (merge_returns "name" existing given); [left; by eexists|by right].
Qed.

(** Identifier resolution makes no remote call: it yields the identifier
    or fails with a message. *)
Lemma task_to_describe_quiet (module : AnsibleModule) :
  (∃ id, resolves module id)
  ∨ ∃ msg, task_to_describe module = halt (fail_json msg).
Proof.
  unfold resolves, task_to_describe.
  destruct (state (params module)).
  - destruct (contains (family _)); simpl; [|right; by eexists].
    destruct (contains (containers _)); simpl; [left|right]; by eexists.
  - destruct (arn _) as [[a|]|]; try (left; by eexists);
      destruct (family _) as [[f|]|]; try (right; by eexists);
      destruct (revision _) as [[r|]|]; try (right; by eexists);
      left; by eexists.
  - destruct (py_bool (py_or _ _)); simpl; [|right; by eexists].
    destruct (get (revision _)) as [r|]; [destruct (py_bool r)|];
      left; by eexists.
Qed.

(** After the lookup, a run either makes no call, or makes one mutating
    call whose answer decides the outcome. *)
Lemma after_lookup_shape (ecs : ecs_client) (module : AnsibleModule)
    (id : option string) (existing : option task_definition) :
  (∃ o, after_lookup ecs module id existing = ([], o)
        ∧ match o with
          | exit_json ch _ =>
              (ch = true → check_mode module = true)
              ∧ (state (params module) = update → ch = true)
          | fail_json _ =>
              state (params module) = update ∧ check_mode module = false
          | uncaught e =>
              e = KeyError "name" ∧ state (params module) = update
              ∧ check_mode module = false
          end)
  ∨ (∃ c, after_lookup ecs module id existing
          = ([c], match response ecs c with
                  | ret td =>
                      exit_json true
                        (if is_register c then Some td else existing)
                  | raise e => uncaught e
                  end)
          ∧ is_mutating c = true
          ∧ check_mode module = false
          ∧ is_deregister c
            = match state (params module) with
              | absent => true
              | _ => false
              end).
Proof.
  unfold after_lookup, reconcile.
  destruct (state (params module)) eqn:Hst.
  - destruct (py_bool existing && _); simpl.
    { left. eexists. split; [done|]. by split. }
    destruct (check_mode module); simpl.
    { left. eexists. split; [done|]. by split. }
    right.
    match goal with
    | |- context [register_task ecs ?f ?cs ?vs] => exists (Register f cs vs)
    end.
    rewrite register_task_run. simpl.
    by destruct (register_task_definition ecs _ _ _).
  - destruct existing as [td|]; simpl.
    2:{ left. eexists. split; [done|]. by split. }
    destruct (status_is td "INACTIVE"); simpl.
    { left. eexists. split; [done|]. by split. }
    destruct (check_mode module); simpl.
    { left. eexists. split; [done|]. by split. }
    right. exists (Deregister id).
    rewrite deregister_task_run. simpl.
    by destruct (deregister_task_definition ecs _).
  - destruct (check_mode module); simpl.
    { left. eexists. split; [done|]. by split. }
    destruct existing as [td|]; simpl.
    2:{ left. eexists. split; done. }
    destruct (updated_list_quiet (td_containerDefinitions td)
                (containers (params module))) as [[uc ->]| ->]; simpl.
    2:{ left. eexists. split; done. }
    destruct (updated_list_quiet (td_volumes td)
                (volumes (params module))) as [[uv ->]| ->]; simpl.
    2:{ left. eexists. split; done. }
    right.
    match goal with
    | |- context [register_task ecs ?f ?cs ?vs] => exists (Register f cs vs)
    end.
    rewrite register_task_run. simpl.
    by destruct (register_task_definition ecs _ _ _).
Qed.

(** A run of [main] stops before any remote call (on a failure or an
    exception of the set-up), or it connects, resolves its identifier
    and looks it up. *)
Lemma main_run (env : environment) (module : AnsibleModule) :
  (∃ o, main env module = ([], o)
        ∧ match o with exit_json _ _ => False | _ => True end)
  ∨ ∃ ecs id,
      connects env ecs ∧ resolves module id
      ∧ ((∃ e, describe_task_definition ecs id = raise e
               ∧ main env module = ([Describe id], uncaught e))
         ∨ ∃ existing,
             looked_up ecs id existing
             ∧ main env module
               = (Describe id :: (after_lookup ecs module id existing).1,
                  (after_lookup ecs module id existing).2)).
Proof.
  destruct (HAS_BOTO env) eqn:Hb.
  2:{ left. unfold main. rewrite Hb. simpl. by eexists. }
  destruct (HAS_BOTO3 env) eqn:Hb3.
  2:{ left. unfold main. rewrite Hb, Hb3. simpl. by eexists. }
  destruct (task_to_describe_quiet module) as [[id Hid]|[msg Hmsg]].
  2:{ left. unfold main. rewrite Hb, Hb3, Hmsg. simpl. by eexists. }
  destruct (py_bool (region env)) eqn:Hr.
  2:{ left. unfold main, EcsTaskManager. rewrite Hb, Hb3, Hid, Hr. simpl.
      by eexists. }
  destruct (boto3_conn env) as [ecs|e] eqn:Hconn.
  2:{ left. unfold main, EcsTaskManager. rewrite Hb, Hb3, Hid, Hr, Hconn.
      destruct e; simpl; by eexists. }
  right. exists ecs, id.
  assert (connects env ecs) as Hc by done.
  split; [done|]. split; [done|].
  destruct (describe_task_definition ecs id) as [td|e] eqn:Hd.
  - right. exists (Some td).
    pose proof (describe_task_returns _ _ _ Hd) as Hl.
    split; [done|]. by apply main_looked_up.
  - destruct e as [k|code|name|msg].
    2:{ right. exists None.
        pose proof (describe_task_ClientError _ _ _ Hd) as Hl.
        split; [done|]. by apply main_looked_up. }
    all: left; eexists; split; [done|];
      rewrite (main_connected env ecs module id) by done;
      unfold describe_task; simpl; by rewrite Hd.
Qed.

Lemma connects_unique (env : environment) (ecs ecs' : ecs_client) :
  connects env ecs → connects env ecs' → ecs = ecs'.
Proof. intros (_ & _ & _ & H) (_ & _ & _ & H'). congruence. Qed.

(** X8.  Whatever the environment and the parameters, an invocation
    makes no remote call, or one lookup, or one lookup followed by one
    mutating call (register or deregister): never two lookups, never two
    mutating calls, never a mutating call without the lookup before it. *)
Theorem main_calls_shape (env : environment) (module : AnsibleModule) :
  (main env module).1 = []
  ∨ ∃ id, (main env module).1 = [Describe id]
          ∨ ∃ c, is_mutating c = true
                 ∧ (main env module).1 = [Describe id; c].
Proof.
  destruct (main_run env module)
    as [(o & -> & _)|(ecs & id & _ & _ & [(e & _ & ->)|(ex & _ & ->)])].
  - by left.
  - right. exists id. by left.
  - right. exists id.
    destruct (after_lookup_shape ecs module id ex)
      as [(o & -> & _)|(c & -> & Hc & _)]; [by left|right; by exists c].
Qed.

(** X9.  Under check mode no mutating call is made, whatever the state,
    the parameters and the answers of the service. *)
Theorem check_mode_never_mutates (env : environment) (module : AnsibleModule) :
  check_mode module = true →
  List.filter is_mutating (main env module).1 = [].
Proof.
  intros Hdry.
  destruct (main_run env module)
    as [(o & -> & _)|(ecs & id & _ & _ & [(e & _ & ->)|(ex & _ & ->)])];
    [done..|].
  destruct (after_lookup_shape ecs module id ex)
    as [(o & -> & _)|(c & _ & _ & Hwet & _)]; [done|congruence].
Qed.

Lemma check_mode_never_mutates_witness :
  check_mode (update_app true) = true
  ∧ List.filter is_mutating
      (main (store_env (Some (svc "ACTIVE" [app_1; sidecar] [])))
         (update_app true)).1 = [].
Proof.
  split; [reflexivity|].
  apply (check_mode_never_mutates
           (store_env (Some (svc "ACTIVE" [app_1; sidecar] [])))
           (update_app true)).
  reflexivity.
Defined.

(** X10.  An invocation that reports changed = false, or that ends in
    [fail_json], has made no mutating call: only a run ending in changed
    = true or in an uncaught exception can have touched the store. *)
Theorem unchanged_or_failed_never_mutated (env : environment)
    (module : AnsibleModule) :
  match (main env module).2 with
  | exit_json true _ | uncaught _ => True
  | exit_json false _ | fail_json _ =>
      List.filter is_mutating (main env module).1 = []
  end.
Proof.
  destruct (main_run env module)
    as [(o & -> & _)|(ecs & id & _ & _ & [(e & _ & ->)|(ex & _ & ->)])].
  - simpl. by destruct o as [[]| |].
  - done.
  - destruct (after_lookup_shape ecs module id ex)
      as [(o & -> & _)|(c & -> & _)]; simpl.
    + by destruct o as [[]| |].
    + by destruct (response ecs c).
Qed.

(** X11.  The state decides which mutating call can be made: [absent]
    never registers, [present] and [update] never deregister. *)
Theorem state_decides_the_call (env : environment) (module : AnsibleModule) :
  match state (params module) with
  | absent => List.filter is_register (main env module).1 = []
  | present | update => List.filter is_deregister (main env module).1 = []
  end.
Proof.
  destruct (main_run env module)
    as [(o & -> & _)|(ecs & id & _ & _ & [(e & _ & ->)|(ex & _ & ->)])];
    [by destruct (state _)..|].
  destruct (after_lookup_shape ecs module id ex)
    as [(o & -> & _)|(c & -> & _ & _ & Hkind)]; simpl.
  - by destruct (state _).
  - destruct (state _), c; simpl in *; done.
Qed.

(** X12.  An [update] that ends normally always reports changed = true,
    also under check mode and also when the merge leaves the content as
    it was. *)
Theorem update_always_changed (env : environment) (module : AnsibleModule)
    (changed : bool) (taskdefinition : option task_definition) :
  state (params module) = update →
  (main env module).2 = exit_json changed taskdefinition →
  changed = true.
Proof.
  intros Hst.
  destruct (main_run env module)
    as [(o & -> & Ho)|(ecs & id & _ & _ & [(e & _ & ->)|(ex & _ & ->)])];
    simpl.
  - by intros ->.
  - done.
  - destruct (after_lookup_shape ecs module id ex)
      as [(o & -> & Ho)|(c & -> & _)]; simpl.
    + intros ->. by apply Ho.
    + destruct (response ecs c); [|done]. by intros [= <- _].
Qed.

Lemma update_always_changed_witness :
  (state (params (update_ghost true)) = update
   ∧ (main (store_env None) (update_ghost true)).2 = exit_json true None)
  ∧ true = true.
Proof.
  split; [split; reflexivity|].
  apply (update_always_changed (store_env None) (update_ghost true) true None);
    reflexivity.
Defined.

(** X13.  When a mutating call is made, its answer decides the outcome:
    if the call returns, changed = true is reported; if it raises, the
    exception is not caught and ends the run. *)
Theorem mutating_call_decides (env : environment) (ecs : ecs_client)
    (module : AnsibleModule) (lookup c : call) :
  connects env ecs →
  (main env module).1 = [lookup; c] →
  match response ecs c with
  | ret _ => ∃ t, (main env module).2 = exit_json true t
  | raise e => (main env module).2 = uncaught e
  end.
Proof.
  intros Hconn.
  destruct (main_run env module)
    as [(o & -> & _)|(ecs' & id & Hconn' & _
                      & [(e & _ & ->)|(ex & _ & ->)])]; [done..|].
  rewrite <-(connects_unique env ecs ecs') by done.
  destruct (after_lookup_shape ecs module id ex)
    as [(o & -> & _)|(c' & -> & _)]; simpl; [done|].
  intros [= _ <-]. destruct (response ecs c'); [by eexists|done].
Qed.

Lemma mutating_call_decides_witness :
  (connects (store_env (Some (svc "ACTIVE" [app_1] [])))
     (store_client (Some (svc "ACTIVE" [app_1] [])))
   ∧ (main (store_env (Some (svc "ACTIVE" [app_1] []))) (absent_svc false)).1
     = [Describe (Some "arn:svc:3"); Deregister (Some "arn:svc:3")])
  ∧ ∃ t, (main (store_env (Some (svc "ACTIVE" [app_1] [])))
            (absent_svc false)).2 = exit_json true t.
Proof.
  assert (connects (store_env (Some (svc "ACTIVE" [app_1] [])))
            (store_client (Some (svc "ACTIVE" [app_1] [])))) as Hc
    by (by repeat split).
  split; [by split|].
  exact (mutating_call_decides _ _ (absent_svc false)
           (Describe (Some "arn:svc:3")) (Deregister (Some "arn:svc:3"))
           Hc eq_refl).
Defined.

(** X14.  No verdict without a lookup: an invocation that ends in
    [exit_json] has first asked the service for the definition. *)
Theorem exit_follows_lookup (env : environment) (module : AnsibleModule) :
  match (main env module).2 with
  | exit_json _ _ => ∃ id calls, (main env module).1 = Describe id :: calls
  | _ => True
  end.
Proof.
  destruct (main_run env module)
    as [(o & -> & Ho)|(ecs & id & _ & _ & [(e & _ & ->)|(ex & _ & ->)])];
    simpl.
  - by destruct o.
  - done.
  - destruct (after_lookup ecs module id ex).2; [by eexists _, _|done..].
Qed.

(** ** The lookup identifier *)

Lemma pretty_N_char_colon_free (x : N) :
  Ascii.eqb (pretty_N_char x) ":"%char = false.
Proof. unfold pretty_N_char. by repeat case_match. Qed.

Lemma pretty_N_go_colon_free (x : N) (s : string) :
  colon_free s = true → colon_free (pretty_N_go x s) = true.
Proof.
  revert s. induction (N.lt_wf_0 x) as [x _ IH]; intros s Hs.
  assert (x = 0 ∨ 0 < x)%N as [->|Hx] by lia.
  - by rewrite pretty_N_go_0.
  - rewrite pretty_N_go_step by done. apply IH.
    + by apply N.div_lt.
    + simpl. by rewrite pretty_N_char_colon_free.
Qed.

Lemma pretty_N_colon_free (x : N) : colon_free (pretty x) = true.
Proof.
  unfold pretty, pretty_N. case_decide; [done|].
  by apply pretty_N_go_colon_free.
Qed.

(** [str] of an integer holds digits and at most a sign. *)
Lemma pretty_Z_colon_free (r : Z) : colon_free (pretty r) = true.
Proof.
  destruct r as [|x|x]; [done|apply pretty_N_colon_free|].
  unfold pretty, pretty_Z. simpl.
  apply (pretty_N_colon_free (N.pos x)).
Qed.

Lemma string_app_nil (b : string) : "" +:+ b = b.
Proof. reflexivity. Qed.

Lemma string_app_cons (c : ascii) (a b : string) :
  String c a +:+ b = String c (a +:+ b).
Proof. reflexivity. Qed.

Lemma colon_free_app_colon (a b : string) :
  colon_free (a +:+ String ":" b) = false.
Proof.
  induction a as [|c a IH].
  - by rewrite string_app_nil.
  - rewrite string_app_cons. simpl. rewrite IH. apply andb_false_r.
Qed.

(** A string splits in one way only at its last colon. *)
Lemma split_at_last_colon (f1 f2 p1 p2 : string) :
  colon_free p1 = true → colon_free p2 = true →
  f1 +:+ ":" +:+ p1 = f2 +:+ ":" +:+ p2 → f1 = f2 ∧ p1 = p2.
Proof.
  intros Hp1 Hp2. revert f2.
  induction f1 as [|c f1 IH]; intros [|c' f2];
    rewrite ?string_app_nil, ?string_app_cons, ?string_app_nil.
  - by intros [= ->].
  - intros [= <- ->]. by rewrite colon_free_app_colon in Hp1.
  - intros [= -> <-]. by rewrite colon_free_app_colon in Hp2.
  - intros [= -> Heq]. by destruct (IH f2 Heq) as [-> ->].
Qed.

(** X15.  [absent] without an identifier: when no arn is given and the
    family or the revision is missing, the invocation fails with the
    message asking for an arn or a family and revision.  No remote call
    is made and the connection is not even set up, so the failure does
    not depend on the region or the credentials. *)
Theorem absent_needs_identifier (env : environment) (module : AnsibleModule) :
  HAS_BOTO env = true →
  HAS_BOTO3 env = true →
  state (params module) = absent →
  get (arn (params module)) = None →
  get (family (params module)) = None
  ∨ get (revision (params module)) = None →
  main env module
  = ([], fail_json "To use task definitions, an arn or family and revision must be specified").
Proof.
  intros Hb Hb3 Hst Harn Hmiss. unfold main, task_to_describe.
  rewrite Hb, Hb3, Hst. simpl.
  destruct (arn (params module)) as [[a|]|]; [done|..];
    destruct (family (params module)) as [[f|]|],
             (revision (params module)) as [[r|]|];
    simpl in *; try done; by destruct Hmiss.
Qed.

Lemma absent_needs_identifier_witness :
  (HAS_BOTO denied_env = true
   ∧ HAS_BOTO3 denied_env = true
   ∧ state (params (invocation absent None (Some "svc") None None None false))
     = absent
   ∧ get (arn (params (invocation absent None (Some "svc") None None None false)))
     = None
   ∧ get (revision
            (params (invocation absent None (Some "svc") None None None false)))
     = None)
  ∧ main denied_env (invocation absent None (Some "svc") None None None false)
    = ([], fail_json "To use task definitions, an arn or family and revision must be specified").
Proof.
  split; [by repeat split|].
  apply (absent_needs_identifier denied_env
           (invocation absent None (Some "svc") None None None false));
    try reflexivity.
  by right.
Defined.

(** X16.  How [absent] names its target: an arn that is given is used as
    it is (an empty one too) and the family and revision are then
    ignored; without an arn the identifier is the family, a colon and
    the revision in decimal, for every revision (zero and negative
    ones included). *)
Theorem absent_identifier (module : AnsibleModule) :
  state (params module) = absent →
  (∀ a, get (arn (params module)) = Some a → resolves module (Some a))
  ∧ (get (arn (params module)) = None →
     ∀ f r, get (family (params module)) = Some f →
            get (revision (params module)) = Some r →
            resolves module (Some (f +:+ ":" +:+ pretty r))).
Proof.
  intros Hst. unfold resolves, task_to_describe. rewrite Hst. split.
  - intros a Ha. by destruct (arn (params module)) as [[a'|]|]; simplify_eq/=.
  - intros Harn f r Hf Hr.
    destruct (arn (params module)) as [[a'|]|]; [done|..];
      by destruct (family (params module)) as [[f'|]|],
                  (revision (params module)) as [[r'|]|]; simplify_eq/=.
Qed.

Lemma absent_identifier_witness :
  state (params (invocation absent None (Some "svc") (Some 0%Z) None None false))
  = absent
  ∧ resolves (invocation absent None (Some "svc") (Some 0%Z) None None false)
      (Some "svc:0").
Proof.
  split; [reflexivity|].
  destruct (absent_identifier
              (invocation absent None (Some "svc") (Some 0%Z) None None false)
              eq_refl) as [_ H].
  exact (H eq_refl "svc" 0%Z eq_refl eq_refl).
Defined.

(** X17.  Two [absent] invocations without arn that resolve to the same
    identifier name the same family and the same revision: the
    identifier family:revision never stands for another revision or
    another family than the one asked for. *)
Theorem absent_identifier_injective (m1 m2 : AnsibleModule)
    (id : option string) :
  state (params m1) = absent →
  state (params m2) = absent →
  get (arn (params m1)) = None →
  get (arn (params m2)) = None →
  resolves m1 id →
  resolves m2 id →
  get (family (params m1)) = get (family (params m2))
  ∧ get (revision (params m1)) = get (revision (params m2)).
Proof.
  unfold resolves, task_to_describe. intros -> -> Ha1 Ha2.
  destruct (arn (params m1)) as [[a1|]|]; [done|..];
    destruct (arn (params m2)) as [[a2|]|]; try done;
    destruct (family (params m1)) as [[f1|]|],
             (revision (params m1)) as [[r1|]|]; try done;
    destruct (family (params m2)) as [[f2|]|],
             (revision (params m2)) as [[r2|]|]; try done;
    intros [= <-] [= Heq];
    apply split_at_last_colon in Heq as [-> Hr];
    try apply pretty_Z_colon_free;
    by apply (inj pretty) in Hr as ->.
Qed.

Lemma absent_identifier_injective_witness :
  (state (params (invocation absent None (Some "svc") (Some 3%Z) None None false))
   = absent
   ∧ state (params (invocation absent None (Some "svc") (Some 3%Z) None None true))
     = absent
   ∧ resolves (invocation absent None (Some "svc") (Some 3%Z) None None false)
       (Some "svc:3")
   ∧ resolves (invocation absent None (Some "svc") (Some 3%Z) None None true)
       (Some "svc:3"))
  ∧ get (revision
           (params (invocation absent None (Some "svc") (Some 3%Z) None None false)))
    = get (revision
             (params (invocation absent None (Some "svc") (Some 3%Z) None None true))).
Proof.
  split; [by repeat split|].
  apply (absent_identifier_injective
           (invocation absent None (Some "svc") (Some 3%Z) None None false)
           (invocation absent None (Some "svc") (Some 3%Z) None None true)
           (Some "svc:3")); reflexivity.
Defined.

(** X18.  How [update] names its target: the arn when one is given and
    is not empty, else the family (which must then be given and not
    empty); the revision is appended after a colon when it is given and
    is not zero, and dropped when it is zero. *)
Theorem update_identifier (module : AnsibleModule) :
  state (params module) = update →
  (∀ a, get (arn (params module)) = Some a → a ≠ "" →
        resolves module
          (Some (with_revision a (get (revision (params module))))))
  ∧ (get (arn (params module)) = None
     ∨ get (arn (params module)) = Some "" →
     ∀ f, get (family (params module)) = Some f → f ≠ "" →
          resolves module
            (Some (with_revision f (get (revision (params module)))))).
Proof.
  intros Hst. unfold resolves, task_to_describe, with_revision.
  rewrite Hst.
  assert (∀ base : string, base ≠ "" →
            (if negb (py_bool (Some base))
             then halt (fail_json "To update a task definition, an arn or family must be specified")
             else
               match get (revision (params module)) with
               | Some r =>
                   if py_bool r
                   then io_ret ((λ s, s +:+ ":" +:+ pretty r) <$> Some base)
                   else io_ret (Some base)
               | None => io_ret (Some base)
               end)
            = io_ret
                (Some
                   match get (revision (params module)) with
                   | Some r =>
                       if bool_decide (r = 0%Z) then base
                       else base +:+ ":" +:+ pretty r
                   | None => base
                   end)) as Hbase.
  { intros base Hne.
    assert (py_bool (Some base) = true) as -> by (by destruct base).
    simpl. destruct (get (revision (params module))) as [r|]; [|done].
    unfold py_bool, Z_py_bool.
    destruct (Z.eqb_spec r 0) as [->|Hr]; simpl; [done|].
    by rewrite bool_decide_eq_false_2. }
  split.
  - intros a -> Ha.
    assert (py_or (Some a) (get (family (params module))) = Some a) as ->
      by (unfold py_or; by destruct a).
    by apply Hbase.
  - intros Harn f -> Hf.
    assert (py_or (get (arn (params module))) (Some f) = Some f) as ->
      by (by destruct Harn as [-> | ->]).
    by apply Hbase.
Qed.

Lemma update_identifier_witness :
  (state (params (invocation update (Some "") (Some "svc") (Some 0%Z)
                    None None false)) = update)
  ∧ resolves (invocation update (Some "") (Some "svc") (Some 0%Z)
                None None false) (Some "svc").
Proof.
  split; [reflexivity|].
  destruct (update_identifier
              (invocation update (Some "") (Some "svc") (Some 0%Z)
                 None None false) eq_refl) as [_ H].
  apply (H (or_intror eq_refl) "svc" eq_refl). discriminate.
Defined.

(** X19.  [update] without an identifier: when the arn is missing or
    empty and so is the family, the invocation fails with the message
    asking for an arn or family, before the connection is set up and
    before any remote call. *)
Theorem update_needs_identifier (env : environment) (module : AnsibleModule) :
  HAS_BOTO env = true →
  HAS_BOTO3 env = true →
  state (params module) = update →
  get (arn (params module)) = None ∨ get (arn (params module)) = Some "" →
  get (family (params module)) = None
  ∨ get (family (params module)) = Some "" →
  main env module
  = ([], fail_json "To update a task definition, an arn or family must be specified").
Proof.
  intros Hb Hb3 Hst Harn Hfam. unfold main, task_to_describe.
  rewrite Hb, Hb3, Hst. simpl.
  by destruct Harn as [-> | ->], Hfam as [-> | ->].
Qed.

Lemma update_needs_identifier_witness :
  (HAS_BOTO denied_env = true
   ∧ HAS_BOTO3 denied_env = true
   ∧ state (params (invocation update None (Some "") None None None false))
     = update
   ∧ get (arn (params (invocation update None (Some "") None None None false)))
     = None
   ∧ get (family (params (invocation update None (Some "") None None None false)))
     = Some "")
  ∧ main denied_env (invocation update None (Some "") None None None false)
    = ([], fail_json "To update a task definition, an arn or family must be specified").
Proof.
  split; [by repeat split|].
  apply (update_needs_identifier denied_env
           (invocation update None (Some "") None None None false));
    try reflexivity; [by left|by right].
Defined.

(** X20.  Failures of the connection set-up end the invocation in
    [fail_json] before any remote call: a missing region with the
    message asking for one, a missing authentication handler with the
    message of the exception after a fixed prefix. *)
Theorem connection_failures (env : environment) (module : AnsibleModule)
    (id : option string) :
  HAS_BOTO env = true →
  HAS_BOTO3 env = true →
  resolves module id →
  (py_bool (region env) = false →
     main env module
     = ([], fail_json "Region must be specified as a parameter, in EC2_REGION or AWS_REGION environment variables or in boto configuration file"))
  ∧ (py_bool (region env) = true →
     ∀ msg, boto3_conn env = raise (NoAuthHandlerFound msg) →
       main env module
       = ([], fail_json ("Can't authorize connection - " +:+ msg))).
Proof.
  intros Hb Hb3 Hid. unfold main, EcsTaskManager.
  rewrite Hb, Hb3, Hid. simpl. split.
  - by intros ->.
  - by intros -> msg ->.
Qed.

Lemma connection_failures_witness :
  (HAS_BOTO {| HAS_BOTO := true; HAS_BOTO3 := true; region := None;
               boto3_conn := ret denied_client |} = true
   ∧ HAS_BOTO3 {| HAS_BOTO := true; HAS_BOTO3 := true; region := None;
                  boto3_conn := ret denied_client |} = true
   ∧ resolves (present_svc false) (Some "svc"))
  ∧ main {| HAS_BOTO := true; HAS_BOTO3 := true; region := None;
            boto3_conn := ret denied_client |} (present_svc false)
    = ([], fail_json "Region must be specified as a parameter, in EC2_REGION or AWS_REGION environment variables or in boto configuration file").
Proof.
  split; [by repeat split|].
  destruct (connection_failures
              {| HAS_BOTO := true; HAS_BOTO3 := true; region := None;
                 boto3_conn := ret denied_client |}
              (present_svc false) (Some "svc") eq_refl eq_refl eq_refl)
    as [H _].
  exact (H eq_refl).
Defined.

(** X21.  An exception of the describe call that is not a client error
    is not caught: it ends the run right after the lookup, and nothing
    is registered or deregistered. *)
Theorem describe_error_not_caught (env : environment) (ecs : ecs_client)
    (module : AnsibleModule) (id : option string) (e : exception) :
  connects env ecs →
  resolves module id →
  describe_task_definition ecs id = raise e →
  (∀ code, e ≠ ClientError code) →
  main env module = ([Describe id], uncaught e).
Proof.
  intros Hconn Hid Hraise Hother.
  rewrite (main_connected env ecs module id) by done.
  unfold describe_task. simpl. rewrite Hraise.
  destruct e as [k|code|name|msg]; try done. by destruct (Hother code).
Qed.

Lemma describe_error_not_caught_witness :
  (connects
     {| HAS_BOTO := true; HAS_BOTO3 := true; region := Some "us-east-1";
        boto3_conn :=
          ret {| describe_task_definition := λ _,
                   raise (BotoCoreError "EndpointConnectionError");
                 register_task_definition := λ f c v, ret (registered f c v);
                 deregister_task_definition := λ _,
                   raise (BotoCoreError "EndpointConnectionError") |} |}
     {| describe_task_definition := λ _,
          raise (BotoCoreError "EndpointConnectionError");
        register_task_definition := λ f c v, ret (registered f c v);
        deregister_task_definition := λ _,
          raise (BotoCoreError "EndpointConnectionError") |}
   ∧ resolves (present_svc false) (Some "svc"))
  ∧ main
      {| HAS_BOTO := true; HAS_BOTO3 := true; region := Some "us-east-1";
         boto3_conn :=
           ret {| describe_task_definition := λ _,
                    raise (BotoCoreError "EndpointConnectionError");
                  register_task_definition := λ f c v, ret (registered f c v);
                  deregister_task_definition := λ _,
                    raise (BotoCoreError "EndpointConnectionError") |} |}
      (present_svc false)
    = ([Describe (Some "svc")],
       uncaught (BotoCoreError "EndpointConnectionError")).
Proof.
  split; [by repeat split|].
  eapply describe_error_not_caught; [by repeat split|reflexivity..|done].
Defined.

Lemma present_missing_key_fails_witness :
  (HAS_BOTO (store_env None) = true
   ∧ HAS_BOTO3 (store_env None) = true
   ∧ state (params present_without_family_key) = present
   ∧ contains (family (params present_without_family_key)) = false)
  ∧ main (store_env None) present_without_family_key
    = ([], fail_json "To use task definitions, a family must be specified").
Proof.
  split; [by repeat split|].
  apply (present_missing_key_fails (store_env None) present_without_family_key);
    try reflexivity.
  by left.
Defined.

(** X22.  An [update] that supplies a container without a name against
    a definition that has containers: the merge raises the [KeyError] of
    the name, the exception is not caught, and no register call is
    made. *)
Theorem update_nameless_container (env : environment) (ecs : ecs_client)
    (module : AnsibleModule) (id : option string) (td : task_definition)
    (cs : list record) :
  connects env ecs →
  state (params module) = update →
  resolves module id →
  looked_up ecs id (Some td) →
  check_mode module = false →
  get (containers (params module)) = Some cs →
  td_containerDefinitions td ≠ [] →
  forallb (has_key "name") (td_containerDefinitions td) = true →
  cs ≠ [] →
  forallb (has_key "name") cs = false →
  main env module = ([Describe id], uncaught (KeyError "name")).
Proof.
  intros Hconn Hst Hid Hex Hwet Hcs Hne Hkeys Hcsne Hnameless.
  rewrite (main_looked_up env ecs module id (Some td)) by done.
  unfold after_lookup, reconcile, updated_list.
  rewrite Hst, Hwet, Hcs. simpl.
  rewrite merge_lists_cases. unfold merge_returns.
  destruct cs as [|c cs]; [done|].
  destruct (td_containerDefinitions td) as [|x xs]; [done|].
  by rewrite Hkeys, Hnameless.
Qed.

Lemma update_nameless_container_witness :
  (connects (store_env (Some (svc "ACTIVE" [app_1] [])))
     (store_client (Some (svc "ACTIVE" [app_1] [])))
   ∧ state (params (invocation update None (Some "svc") None
                      (Some [nameless]) None false)) = update
   ∧ resolves (invocation update None (Some "svc") None
                 (Some [nameless]) None false) (Some "svc")
   ∧ looked_up (store_client (Some (svc "ACTIVE" [app_1] [])))
       (Some "svc") (Some (svc "ACTIVE" [app_1] []))
   ∧ forallb (has_key "name") [nameless] = false)
  ∧ main (store_env (Some (svc "ACTIVE" [app_1] [])))
      (invocation update None (Some "svc") None (Some [nameless]) None false)
    = ([Describe (Some "svc")], uncaught (KeyError "name")).
Proof.
  assert (connects (store_env (Some (svc "ACTIVE" [app_1] [])))
            (store_client (Some (svc "ACTIVE" [app_1] [])))) as Hc
    by (by repeat split).
  split; [by repeat split|].
  apply (update_nameless_container _ _
           (invocation update None (Some "svc") None (Some [nameless]) None
              false)
           (Some "svc") (svc "ACTIVE" [app_1] []) [nameless]
           Hc eq_refl eq_refl eq_refl eq_refl eq_refl);
    done.
Defined.

(** X23.  An [update] that supplies the containers the definition
    already has (their names distinct) and no volumes registers the
    same content again: the register call receives the existing
    containers and the existing volumes. *)
Theorem update_with_existing_content (env : environment) (ecs : ecs_client)
    (module : AnsibleModule) (id : option string) (td : task_definition) :
  connects env ecs →
  state (params module) = update →
  resolves module id →
  looked_up ecs id (Some td) →
  check_mode module = false →
  get (containers (params module)) = Some (td_containerDefinitions td) →
  distinct_keys "name" (td_containerDefinitions td) = true →
  get (volumes (params module)) = None →
  (main env module).1
  = [Describe id;
     Register (Some (family_or (get (family (params module))) (td_family td)))
       (Some (td_containerDefinitions td)) (Some (td_volumes td))].
Proof.
  intros Hconn Hst Hid Hex Hwet Hcs Hdist Hvs.
  destruct (update_calls env ecs module id td Hconn Hst Hid Hex) as [_ Hrun].
  rewrite (Hrun Hwet (td_containerDefinitions td) []).
  - by destruct (td_containerDefinitions td).
  - rewrite Hcs. simpl. by apply merge_lists_same_list.
  - by rewrite Hvs.
Qed.

Lemma update_with_existing_content_witness :
  (connects (store_env (Some (svc "ACTIVE" [app_1; sidecar] [my_vol])))
     (store_client (Some (svc "ACTIVE" [app_1; sidecar] [my_vol])))
   ∧ state (params (invocation update None (Some "svc") None
                      (Some [app_1; sidecar]) None false)) = update
   ∧ resolves (invocation update None (Some "svc") None
                 (Some [app_1; sidecar]) None false) (Some "svc")
   ∧ looked_up (store_client (Some (svc "ACTIVE" [app_1; sidecar] [my_vol])))
       (Some "svc") (Some (svc "ACTIVE" [app_1; sidecar] [my_vol]))
   ∧ distinct_keys "name" [app_1; sidecar] = true)
  ∧ (main (store_env (Some (svc "ACTIVE" [app_1; sidecar] [my_vol])))
       (invocation update None (Some "svc") None (Some [app_1; sidecar])
          None false)).1
    = [Describe (Some "svc");
       Register (Some "svc") (Some [app_1; sidecar]) (Some [my_vol])].
Proof.
  assert (connects (store_env (Some (svc "ACTIVE" [app_1; sidecar] [my_vol])))
            (store_client (Some (svc "ACTIVE" [app_1; sidecar] [my_vol]))))
    as Hc by (by repeat split).
  split; [by repeat split|].
  exact (update_with_existing_content _ _
           (invocation update None (Some "svc") None (Some [app_1; sidecar])
              None false)
           (Some "svc") (svc "ACTIVE" [app_1; sidecar] [my_vol])
           Hc eq_refl eq_refl eq_refl eq_refl eq_refl eq_refl eq_refl).
Defined.
